(** * Audio-Sandbox: impact queue, procedural controller and frame orchestration

    A shallow embedding of the C++ sources of the audio sandbox:
    [PhysicsCore.h], [AudioSynthesizer.h], [AudioPhysicsIntegration.h],
    [ProceduralGeneration.h], [SandboxManager.h] and [SandboxManager.cpp].

    - C++ [float] is IEEE-754 binary32, embedded with the executable
      specification of [SpecFloat] at precision 24 and maximal exponent 128,
      so rounding, signed zeros, infinities and NaN are all present.
    - [int32] values are integers of [Z]; [TArray<T>] is a [list T] indexed
      by [Z], with out-of-range accesses and negative sizes made explicit as
      failures ([None]).
    - [TSharedPtr] objects live in a store indexed by pointer identity, so
      that the aliases held by the physics world, the audio layer and a
      sandbox all see the same object.
    - Member functions that are only declared in the headers are either
      fields of the classes [ProceduralBodies] and [Collaborators] or,
      where the specification fixes their behaviour, definitions marked
      [Modelled from the spec].

    The first part holds the definitions, the second the properties: the
    bounded queue, IEEE comparison and clamping, the rounding of binary32
    products and sums, the controller's range mapping, the frame update and
    the resonator sandbox. *)

From Stdlib Require Import ZArith List Bool Lia.
From Stdlib Require Import Floats.SpecFloat.
From stdpp Require Import base option list gmap.

Local Open Scope Z_scope.

(** ** IEEE-754 binary32 *)

Module Float32.

Definition prec : Z := 24.
Definition emax : Z := 128.

Abbreviation float := spec_float.

Definition add : float -> float -> float := SFadd prec emax.
Definition sub : float -> float -> float := SFsub prec emax.
Definition mul : float -> float -> float := SFmul prec emax.
Definition div : float -> float -> float := SFdiv prec emax.
Definition opp : float -> float := SFopp.
Definition ltb : float -> float -> bool := SFltb.
Definition leb : float -> float -> bool := SFleb.

(** An integer literal such as [2.0f]. *)
Definition of_Z (n : Z) : float := binary_normalize prec emax n 0 false.

(** A decimal literal [n/d], e.g. [0.6f] is [lit 6 10]: the nearest
    binary32 number, obtained by a correctly rounded division of two
    exactly representable integers. *)
Definition lit (n d : Z) : float := div (of_Z n) (of_Z d).

Definition zero : float := S754_zero false.
Definition one : float := of_Z 1.

(** A value every C++ float variable can hold: a canonical mantissa and
    exponent, an infinity, a signed zero or NaN. *)
Definition valid (x : float) : bool := valid_binary prec emax x.

(** Membership in a closed interval, decided with the IEEE comparison
    (false as soon as one side is NaN). *)
Definition within (lo hi x : float) : bool := leb lo x && leb x hi.

End Float32.

(** ** Bookkeeping for rounding

    The value of a finite binary32 number [m * 2^e] has [e >= -149], and a
    product of two has [e >= -298]; multiplied by [2^300] every such value
    is an integer, which is how values are compared exactly. *)

Module Rounding.

Abbreviation fexp32 := (fexp 24 128).

Definition scaled (m e : Z) : Z := m * 2 ^ (e + 300).

(** The round and sticky bits record that something non-zero was shifted
    out. *)
Definition inexact (mrs : shr_record) : bool := shr_r mrs || shr_s mrs.

(** [mrs] is what is left of the mantissa [m0] after its [k] low bits were
    shifted out, the shifted-out part being [rem]. *)
Definition shifted (m0 : Z) (k : Z) (mrs : shr_record) : Prop :=
  0 <= shr_m mrs /\
  exists rem, m0 = shr_m mrs * 2 ^ k + rem /\ 0 <= rem < 2 ^ k /\
              (inexact mrs = false <-> rem = 0).

End Rounding.

Arguments Float32.add : simpl never.
Arguments Float32.sub : simpl never.
Arguments Float32.mul : simpl never.
Arguments Float32.div : simpl never.
Arguments Float32.opp : simpl never.
Arguments Float32.ltb : simpl never.
Arguments Float32.leb : simpl never.
Arguments Float32.of_Z : simpl never.
Arguments Float32.lit : simpl never.

Declare Scope float32_scope.
Delimit Scope float32_scope with f32.
Notation "x + y" := (Float32.add x y) : float32_scope.
Notation "x - y" := (Float32.sub x y) : float32_scope.
Notation "x * y" := (Float32.mul x y) : float32_scope.
Notation "- x" := (Float32.opp x) : float32_scope.
Notation "x <? y" := (Float32.ltb x y) : float32_scope.
Notation "x <=? y" := (Float32.leb x y) : float32_scope.

Abbreviation float := spec_float.

(** ** The engine's [FMath] helpers and [TArray] *)

Module FMath.

(** The engine's [FMath::Clamp(X, Min, Max)]:
    [X < Min ? Min : X < Max ? X : Max], with the IEEE comparison, so a NaN
    is clamped to [Max]. *)
Definition Clamp (X Min Max : float) : float :=
  if (X <? Min)%f32 then Min else if (X <? Max)%f32 then X else Max.

(** The engine's [FMath::Max(A, B)]: [A >= B ? A : B], with the IEEE
    comparison. *)
Definition Max (A B : float) : float :=
  if (B <=? A)%f32 then A else B.

End FMath.

Definition INT32_MAX : Z := 2147483647.

Module TArray.

Definition Num {A} (l : list A) : Z := Z.of_nat (length l).

(** [operator[]] on a valid index; [None] is the range-check failure. *)
Definition Get {A} (l : list A) (i : Z) : option A :=
  if (0 <=? i) && (i <? Num l) then l !! Z.to_nat i else None.

Definition Set_ {A} (l : list A) (i : Z) (x : A) : option (list A) :=
  if (0 <=? i) && (i <? Num l) then Some (<[Z.to_nat i := x]> l) else None.

(** [SetNum(n)]: keeps the first [n] elements and appends value-initialised
    ones up to length [n]; a count that is negative or does not fit an
    [int32] is an invalid array size. *)
Definition SetNum {A} (dflt : A) (l : list A) (n : Z) : option (list A) :=
  if (0 <=? n) && (n <=? INT32_MAX) then Some (resize (Z.to_nat n) dflt l)
  else None.

Definition Add {A} (l : list A) (x : A) : list A := l ++ [x].

(** [RemoveAt(0)] on a non-empty array. *)
Definition RemoveFirst {A} (l : list A) : list A := tail l.

End TArray.

(** ** PhysicsCore.h: vectors, rigid bodies and impact events *)

Module FVector3.

Record t := mk { X : float; Y : float; Z : float }.

(** [FVector3(0, 0, 0)], also the default constructor. *)
Definition zero : t := mk Float32.zero Float32.zero Float32.zero.

End FVector3.

Module FPhysicsObject.

Record t := mk {
  Position : FVector3.t;
  Velocity : FVector3.t;
  Acceleration : FVector3.t;
  TotalForce : FVector3.t;
  Mass : float;
  Damping : float
}.

Definition SetPosition (o : t) (NewPos : FVector3.t) : t :=
  mk NewPos (Velocity o) (Acceleration o) (TotalForce o) (Mass o) (Damping o).

Definition SetVelocity (o : t) (NewVel : FVector3.t) : t :=
  mk (Position o) NewVel (Acceleration o) (TotalForce o) (Mass o) (Damping o).

Definition SetDamping (o : t) (NewDamping : float) : t :=
  mk (Position o) (Velocity o) (Acceleration o) (TotalForce o) (Mass o)
     (FMath.Clamp NewDamping Float32.zero Float32.one).

End FPhysicsObject.

Module FPhysicsSphere.

Record t := mk { Object : FPhysicsObject.t; Radius : float }.

(** Applies a member function of the base class to a sphere. *)
Definition on_object (f : FPhysicsObject.t -> FPhysicsObject.t) (s : t) : t :=
  mk (f (Object s)) (Radius s).

End FPhysicsSphere.

(** The identity of an object behind a [TSharedPtr], and the objects that
    are alive.  Every holder of a pointer reads and writes the same entry.
    The objects the sandboxes create with [MakeShared] are all spheres. *)
Definition ObjectPtr : Type := positive.
Abbreviation ObjectStore := (gmap positive FPhysicsSphere.t).

Module FPhysicsWorld.

Record t := mk { PhysicsObjects : list ObjectPtr; Gravity : FVector3.t }.

Definition SetGravity (w : t) (NewGravity : FVector3.t) : t :=
  mk (PhysicsObjects w) NewGravity.

Definition GetObjects (w : t) : list ObjectPtr := PhysicsObjects w.

End FPhysicsWorld.

Record FImpactEvent := mkFImpactEvent {
  Position : FVector3.t;
  ImpactNormal : FVector3.t;
  ImpactForce : float;
  ImpactFrequency : float;
  Duration : float;
  ObjectID : Z
}.

(** The default constructor [FImpactEvent()]. *)
Definition FImpactEvent_new : FImpactEvent :=
  mkFImpactEvent FVector3.zero FVector3.zero
    Float32.zero (Float32.of_Z 200) (Float32.lit 5 10) 0.

(** ** AudioPhysicsIntegration.h: the bounded impact queue *)

Module FImpactEventQueue.

Record t := mk { ImpactQueue : list FImpactEvent; MaxSize : Z }.

(** Modelled from the spec: the constructor body is not part of the
    sources; the queue starts empty with the capacity fixed at
    construction. *)
Definition new (MaxQueueSize : Z) : t := mk [] MaxQueueSize.

Definition GetQueueSize (q : t) : Z := TArray.Num (ImpactQueue q).
Definition HasEvents (q : t) : bool := 0 <? TArray.Num (ImpactQueue q).

(** Modelled from the spec: [QueueImpact] is only declared in the header;
    "if size < C, append; if size == C, the event is dropped". *)
Definition QueueImpact (q : t) (Impact : FImpactEvent) : t :=
  if GetQueueSize q <? MaxSize q
  then mk (TArray.Add (ImpactQueue q) Impact) (MaxSize q)
  else q.

(** Modelled from the spec: [DequeueImpact] is only declared in the
    header; it "removes and returns the oldest event, signaling empty
    rather than failing when none remain".  The result is the returned
    flag, the caller's [OutImpact] after the call and the queue after the
    call. *)
Definition DequeueImpact (q : t) (OutImpact : FImpactEvent)
  : bool * FImpactEvent * t :=
  match ImpactQueue q with
  | [] => (false, OutImpact, q)
  | oldest :: rest => (true, oldest, mk rest (MaxSize q))
  end.

(** A call made by the producer or by the consumer. *)
Inductive call :=
| Queue (Impact : FImpactEvent)
| Dequeue.

(** What a run of calls has produced so far: the queue, the events the
    queue took in (in the order they were offered) and the events handed
    out by successful dequeues (in the order they came out). *)
Record run_state := mkRun {
  queue : t;
  retained : list FImpactEvent;
  dequeued : list FImpactEvent
}.

Definition step (s : run_state) (c : call) : run_state :=
  match c with
  | Queue e =>
      let q' := QueueImpact (queue s) e in
      if GetQueueSize (queue s) <? GetQueueSize q'
      then mkRun q' (retained s ++ [e]) (dequeued s)
      else mkRun q' (retained s) (dequeued s)
  | Dequeue =>
      match DequeueImpact (queue s) FImpactEvent_new with
      | (true, e, q') => mkRun q' (retained s) (dequeued s ++ [e])
      | (false, _, q') => mkRun q' (retained s) (dequeued s)
      end
  end.

Definition run (q : t) (calls : list call) : run_state :=
  fold_left step calls (mkRun q [] []).

(** First in, first out: the events taken in are the events handed out
    followed by the events still queued, in that order. *)
Definition fifo (s : run_state) : Prop :=
  retained s = dequeued s ++ ImpactQueue (queue s).

(** Draining: dequeue until the queue reports empty, at most [fuel]
    times. *)
Fixpoint drain (fuel : nat) (q : t) : list FImpactEvent * t :=
  match fuel with
  | O => ([], q)
  | S fuel' =>
      match DequeueImpact q FImpactEvent_new with
      | (true, e, q') => let '(es, q'') := drain fuel' q' in (e :: es, q'')
      | (false, _, q') => ([], q')
      end
  end.

End FImpactEventQueue.

(** ** AudioSynthesizer.h: the oscillator *)

Module FOscillator.

Inductive EWaveform := Sine | Square | Sawtooth | Triangle | Noise.

Record t := mk {
  SampleRate : float;
  CurrentPhase : float;
  CurrentFrequency : float;
  CurrentAmplitude : float;
  CurrentWaveform : EWaveform;
  SineTable : list float
}.

(** Modelled from the spec: [SetWaveform] is only declared in the header;
    it "sets the waveform selector" and nothing else. *)
Definition SetWaveform (o : t) (NewWaveform : EWaveform) : t :=
  mk (SampleRate o) (CurrentPhase o) (CurrentFrequency o)
     (CurrentAmplitude o) NewWaveform (SineTable o).

End FOscillator.

(** ** ProceduralGeneration.h: generator variants and the controller *)

Module FPerlinNoiseGenerator.
Record t := mk {
  Seed : Z;
  CurrentTime : float;
  Octaves : Z;
  Persistence : float;
  Scale : float
}.
End FPerlinNoiseGenerator.

Module FChaoticGenerator.
Inductive EChaosType := Logistic | Henon | Lorenz.
Record t := mk {
  ChaoticType : EChaosType;
  ChaosParam : float;
  X : float;
  Y : float
}.
End FChaoticGenerator.

Module FSpectralGenerator.
Record FHarmonic := mkHarmonic {
  Frequency : float;
  Amplitude : float;
  Phase : float
}.
Record t := mk {
  Harmonics : list FHarmonic;
  SampleCount : Z;
  CurrentTime : float
}.
End FSpectralGenerator.

Module FMarkovGenerator.
Record FStateTransition := mkTransition {
  FromState : float;
  ToState : float;
  Probability : float
}.
Record t := mk {
  Order : Z;
  CurrentState : float;
  RandomSeed : Z;
  Transitions : list FStateTransition
}.
End FMarkovGenerator.

(** The object behind a [TUniquePtr<FProceduralGenerator>]: one of the four
    classes that derive from the interface. *)
Inductive FProceduralGenerator :=
| NoiseGenerator (g : FPerlinNoiseGenerator.t)
| ChaoticGenerator (g : FChaoticGenerator.t)
| SpectralGenerator (g : FSpectralGenerator.t)
| MarkovGenerator (g : FMarkovGenerator.t).

(** The bodies of [ProceduralGeneration.cpp] are not part of the sources.
    Each variant's [GetNextValue] is a function of the object's own fields
    that returns the value and the object after the call; the controller's
    fixed default for an empty slot and its repair of an invalid range
    ("swap or collapse") are left open by the specification. *)
Class ProceduralBodies := {
  FPerlinNoiseGenerator_GetNextValue :
    FPerlinNoiseGenerator.t -> float * FPerlinNoiseGenerator.t;
  FChaoticGenerator_GetNextValue :
    FChaoticGenerator.t -> float * FChaoticGenerator.t;
  FSpectralGenerator_GetNextValue :
    FSpectralGenerator.t -> float * FSpectralGenerator.t;
  FMarkovGenerator_GetNextValue :
    FMarkovGenerator.t -> float * FMarkovGenerator.t;
  DefaultSlotValue : float;
  RepairRange : float -> float -> float * float
}.

Module FProceduralController.

(** A slot is [None] while its [TUniquePtr] is null. *)
Record t := mk {
  FrequencyGen : option FProceduralGenerator;
  AmplitudeGen : option FProceduralGenerator;
  SpectralGen : option FProceduralGenerator;
  DurationGen : option FProceduralGenerator;
  FreqMin : float;
  FreqMax : float;
  AmpMin : float;
  AmpMax : float;
  DurMin : float;
  DurMax : float
}.

(** The four out-parameters of one [GenerateParameters] call. *)
Record ParameterSet := mkParameters {
  OutFrequency : float;
  OutAmplitude : float;
  OutSpectralRichness : float;
  OutDuration : float
}.

Definition with_generators (c : t)
  (f a s d : option FProceduralGenerator) : t :=
  mk f a s d (FreqMin c) (FreqMax c) (AmpMin c) (AmpMax c) (DurMin c) (DurMax c).

Definition with_frequency_range (c : t) (r : float * float) : t :=
  mk (FrequencyGen c) (AmplitudeGen c) (SpectralGen c) (DurationGen c)
     (fst r) (snd r) (AmpMin c) (AmpMax c) (DurMin c) (DurMax c).

Definition with_amplitude_range (c : t) (r : float * float) : t :=
  mk (FrequencyGen c) (AmplitudeGen c) (SpectralGen c) (DurationGen c)
     (FreqMin c) (FreqMax c) (fst r) (snd r) (DurMin c) (DurMax c).

Definition with_duration_range (c : t) (r : float * float) : t :=
  mk (FrequencyGen c) (AmplitudeGen c) (SpectralGen c) (DurationGen c)
     (FreqMin c) (FreqMax c) (AmpMin c) (AmpMax c) (fst r) (snd r).

(** Modelled from the spec: [SetFrequencyGenerator] is only declared in the
    header; the slots are "independently settable", so it installs the
    generator it is given in the frequency slot. *)
Definition SetFrequencyGenerator (c : t) (Gen : option FProceduralGenerator) : t :=
  with_generators c Gen (AmplitudeGen c) (SpectralGen c) (DurationGen c).

(** Modelled from the spec: [SetAmplitudeGenerator] is only declared in the
    header; it installs the generator in the amplitude slot. *)
Definition SetAmplitudeGenerator (c : t) (Gen : option FProceduralGenerator) : t :=
  with_generators c (FrequencyGen c) Gen (SpectralGen c) (DurationGen c).

(** Modelled from the spec: [SetSpectralGenerator] is only declared in the
    header; it installs the generator in the spectral-richness slot. *)
Definition SetSpectralGenerator (c : t) (Gen : option FProceduralGenerator) : t :=
  with_generators c (FrequencyGen c) (AmplitudeGen c) Gen (DurationGen c).

(** Modelled from the spec: [SetDurationGenerator] is only declared in the
    header; it installs the generator in the duration slot. *)
Definition SetDurationGenerator (c : t) (Gen : option FProceduralGenerator) : t :=
  with_generators c (FrequencyGen c) (AmplitudeGen c) (SpectralGen c) Gen.

(** Modelled from the spec: [MapRange] is only declared in the header; a
    value of [[0,1]] is mapped linearly onto [[OutMin, OutMax]]. *)
Definition MapRange (Value OutMin OutMax : float) : float :=
  (OutMin + Value * (OutMax - OutMin))%f32.

Section Bodies.
Context {bodies : ProceduralBodies}.

(** The virtual call [Gen->GetNextValue()]. *)
Definition GetNextValue (g : FProceduralGenerator) : float * FProceduralGenerator :=
  match g with
  | NoiseGenerator n =>
      let '(v, n') := FPerlinNoiseGenerator_GetNextValue n in (v, NoiseGenerator n')
  | ChaoticGenerator c =>
      let '(v, c') := FChaoticGenerator_GetNextValue c in (v, ChaoticGenerator c')
  | SpectralGenerator s =>
      let '(v, s') := FSpectralGenerator_GetNextValue s in (v, SpectralGenerator s')
  | MarkovGenerator m =>
      let '(v, m') := FMarkovGenerator_GetNextValue m in (v, MarkovGenerator m')
  end.

(** Modelled from the spec: the range setters are only declared in the
    header; a range is taken as given when [min < max], and an invalid one
    is "corrected by swap or by collapsing to a single valid point". *)
Definition checked_range (lo hi : float) : float * float :=
  if (lo <? hi)%f32 then (lo, hi) else RepairRange lo hi.

(** Modelled from the spec: [SetFrequencyRange] is only declared in the
    header; it stores the checked range of the frequency slot. *)
Definition SetFrequencyRange (c : t) (MinHz MaxHz : float) : t :=
  with_frequency_range c (checked_range MinHz MaxHz).

(** Modelled from the spec: [SetAmplitudeRange] is only declared in the
    header; it stores the checked range of the amplitude slot. *)
Definition SetAmplitudeRange (c : t) (MinAmp MaxAmp : float) : t :=
  with_amplitude_range c (checked_range MinAmp MaxAmp).

(** Modelled from the spec: [SetDurationRange] is only declared in the
    header; it stores the checked range of the duration slot. *)
Definition SetDurationRange (c : t) (MinSec MaxSec : float) : t :=
  with_duration_range c (checked_range MinSec MaxSec).

(** Modelled from the spec: one value is pulled from a slot; "a slot with
    no generator assigned yields a fixed default". *)
Definition pull (slot : option FProceduralGenerator)
  : float * option FProceduralGenerator :=
  match slot with
  | Some g => let '(v, g') := GetNextValue g in (v, Some g')
  | None => (DefaultSlotValue, None)
  end.

(** Modelled from the spec: [GenerateParameters] is only declared in the
    header; it "pulls one value from each configured slot, linearly maps it
    from [0,1] into its configured [min,max] range, and returns the
    resulting ParameterSet".  The class has no range fields for the spectral
    slot, whose range the data model fixes to [[0,1]]. *)
Definition GenerateParameters (c : t) : ParameterSet * t :=
  let '(vf, fg) := pull (FrequencyGen c) in
  let '(va, ag) := pull (AmplitudeGen c) in
  let '(vs, sg) := pull (SpectralGen c) in
  let '(vd, dg) := pull (DurationGen c) in
  (mkParameters
     (MapRange vf (FreqMin c) (FreqMax c))
     (MapRange va (AmpMin c) (AmpMax c))
     (MapRange vs Float32.zero Float32.one)
     (MapRange vd (DurMin c) (DurMax c)),
   with_generators c fg ag sg dg).

End Bodies.

End FProceduralController.

(** ** AudioPhysicsIntegration.h: mapper and audio/physics integration *)

Module FAudioPhysicsMapper.
Record t := mk {
  MinFrequency : float;
  MaxFrequency : float;
  FrequencyScale : float
}.
End FAudioPhysicsMapper.

Module FAudioPhysicsSandbox.

(** [Voices] stands for the mixer with the impact and resonance voices it
    plays ([AudioMixer], [ImpactSynth], [ResonanceSynth]). *)
Record t (Voices : Type) := mk {
  AudioVoices : Voices;
  PhysicsMapper : FAudioPhysicsMapper.t;
  ImpactQueue : FImpactEventQueue.t;
  MonitoredObjects : list ObjectPtr;
  MasterVolume : float;
  SampleRate : float
}.

Arguments mk {Voices}.
Arguments AudioVoices {Voices}.
Arguments PhysicsMapper {Voices}.
Arguments ImpactQueue {Voices}.
Arguments MonitoredObjects {Voices}.
Arguments MasterVolume {Voices}.
Arguments SampleRate {Voices}.

Definition SetMasterVolume {Voices} (a : t Voices) (Volume : float) : t Voices :=
  mk (AudioVoices a) (PhysicsMapper a) (ImpactQueue a) (MonitoredObjects a)
     (FMath.Clamp Volume Float32.zero Float32.one) (SampleRate a).

Definition GetMasterVolume {Voices} (a : t Voices) : float := MasterVolume a.

Definition GetImpactQueue {Voices} (a : t Voices) : FImpactEventQueue.t :=
  ImpactQueue a.

End FAudioPhysicsSandbox.

(** The member functions of [PhysicsCore.h], [AudioSynthesizer.h] and
    [AudioPhysicsIntegration.h] that [SandboxManager.cpp] calls and whose
    bodies are not part of the sources.  A function that receives an object
    by reference or through a pointer returns the object after the call. *)
Class Collaborators (Voices : Type) := {
  FPhysicsWorld_new : FPhysicsWorld.t;
  FPhysicsWorld_AddObject : FPhysicsWorld.t -> ObjectPtr -> FPhysicsWorld.t;
  FPhysicsWorld_RemoveObject : FPhysicsWorld.t -> ObjectPtr -> FPhysicsWorld.t;
  FPhysicsWorld_SimulateStep :
    ObjectStore -> FPhysicsWorld.t -> float -> ObjectStore * FPhysicsWorld.t;
  FPhysicsSphere_new : float -> float -> FPhysicsSphere.t;
  FPhysicsObject_ApplyImpulse :
    FPhysicsObject.t -> FVector3.t -> FPhysicsObject.t;
  FOscillator_new : float -> FOscillator.t;
  FOscillator_SetFrequency : FOscillator.t -> float -> FOscillator.t;
  FOscillator_SetAmplitude : FOscillator.t -> float -> FOscillator.t;
  FOscillator_GenerateSamples :
    FOscillator.t -> list float -> Z -> FOscillator.t * list float;
  FAudioPhysicsSandbox_new : float -> FAudioPhysicsSandbox.t Voices;
  FAudioPhysicsSandbox_Update :
    FAudioPhysicsSandbox.t Voices -> ObjectStore -> FPhysicsWorld.t ->
    float -> list float -> Z ->
    FAudioPhysicsSandbox.t Voices * ObjectStore * FPhysicsWorld.t * list float;
  FAudioPhysicsSandbox_RegisterPhysicsObject :
    FAudioPhysicsSandbox.t Voices -> ObjectPtr -> FAudioPhysicsSandbox.t Voices;
  FAudioPhysicsSandbox_UnregisterPhysicsObject :
    FAudioPhysicsSandbox.t Voices -> ObjectPtr -> FAudioPhysicsSandbox.t Voices;
  FProceduralController_new : FProceduralController.t;
  procedural_bodies :: ProceduralBodies
}.

(** ** SandboxManager.h / SandboxManager.cpp *)

(** [for (int32 i = 0; i < n; ++i) body(i)] over a state that an iteration
    may fail to produce. *)
Fixpoint for_loop {S : Type} (count : nat) (i : Z)
  (body : Z -> S -> option S) (s : S) : option S :=
  match count with
  | O => Some s
  | S count' => s' ← body i s; for_loop count' (i + 1) body s'
  end.

Definition for_upto {S : Type} (n : Z) (body : Z -> S -> option S) (s : S)
  : option S :=
  for_loop (Z.to_nat n) 0 body s.

Module FSandboxManager.

Record t (Voices : Type) := mk {
  PhysicsWorld : FPhysicsWorld.t;
  AudioPhysicsIntegration : FAudioPhysicsSandbox.t Voices;
  ProceduralController : FProceduralController.t;
  SampleRate : float;
  BufferSize : Z;
  SimulationSpeed : float;
  bUseProceduralGeneration : bool;
  bUsePhysicsAudio : bool;
  bUseResonanceSynthesis : bool;
  bInitialized : bool;
  LastFrameTime : float;
  FrameTimeHistory : list float
}.

Arguments mk {Voices}.
Arguments PhysicsWorld {Voices}.
Arguments AudioPhysicsIntegration {Voices}.
Arguments ProceduralController {Voices}.
Arguments SampleRate {Voices}.
Arguments BufferSize {Voices}.
Arguments SimulationSpeed {Voices}.
Arguments bUseProceduralGeneration {Voices}.
Arguments bUsePhysicsAudio {Voices}.
Arguments bUseResonanceSynthesis {Voices}.
Arguments bInitialized {Voices}.
Arguments LastFrameTime {Voices}.
Arguments FrameTimeHistory {Voices}.

(** [FStats] of the header. *)
Record FSandboxStats := mkStats {
  ActivePhysicsObjects : Z;
  QueuedImpacts : Z;
  AverageAudioLevel : float;
  SimulationFrameTime : float
}.

(** The weights of line 94 and the thresholds of lines 152 and 156. *)
Definition PhysicsWeight : float := Float32.lit 6 10.
Definition ProceduralWeight : float := Float32.lit 4 10.
Definition OutputGain : float := Float32.lit 9 10.
Definition TriangleThreshold : float := Float32.lit 33 100.
Definition SawtoothThreshold : float := Float32.lit 66 100.

(** The right-hand side of line 94. *)
Definition Blend (physics procedural : float) : float :=
  ((physics * PhysicsWeight + procedural * ProceduralWeight) * OutputGain)%f32.

Section Methods.
Context {Voices : Type} {collab : Collaborators Voices}.

Abbreviation manager := (t Voices).

Definition EnableProceduralGeneration (m : manager) (bEnable : bool) : manager :=
  mk (PhysicsWorld m) (AudioPhysicsIntegration m) (ProceduralController m)
     (SampleRate m) (BufferSize m) (SimulationSpeed m)
     bEnable (bUsePhysicsAudio m) (bUseResonanceSynthesis m)
     (bInitialized m) (LastFrameTime m) (FrameTimeHistory m).

Definition EnablePhysicsAudio (m : manager) (bEnable : bool) : manager :=
  mk (PhysicsWorld m) (AudioPhysicsIntegration m) (ProceduralController m)
     (SampleRate m) (BufferSize m) (SimulationSpeed m)
     (bUseProceduralGeneration m) bEnable (bUseResonanceSynthesis m)
     (bInitialized m) (LastFrameTime m) (FrameTimeHistory m).

Definition EnableResonance (m : manager) (bEnable : bool) : manager :=
  mk (PhysicsWorld m) (AudioPhysicsIntegration m) (ProceduralController m)
     (SampleRate m) (BufferSize m) (SimulationSpeed m)
     (bUseProceduralGeneration m) (bUsePhysicsAudio m) bEnable
     (bInitialized m) (LastFrameTime m) (FrameTimeHistory m).

Definition SetSimulationSpeed (m : manager) (Speed : float) : manager :=
  mk (PhysicsWorld m) (AudioPhysicsIntegration m) (ProceduralController m)
     (SampleRate m) (BufferSize m) (FMath.Max Speed (Float32.lit 1 10))
     (bUseProceduralGeneration m) (bUsePhysicsAudio m)
     (bUseResonanceSynthesis m) (bInitialized m) (LastFrameTime m)
     (FrameTimeHistory m).

Definition GetSimulationSpeed (m : manager) : float := SimulationSpeed m.

Definition with_components (m : manager) (w : FPhysicsWorld.t)
  (a : FAudioPhysicsSandbox.t Voices) (c : FProceduralController.t) : manager :=
  mk w a c (SampleRate m) (BufferSize m) (SimulationSpeed m)
     (bUseProceduralGeneration m) (bUsePhysicsAudio m)
     (bUseResonanceSynthesis m) (bInitialized m) (LastFrameTime m)
     (FrameTimeHistory m).

Definition with_history (m : manager) (h : list float) : manager :=
  mk (PhysicsWorld m) (AudioPhysicsIntegration m) (ProceduralController m)
     (SampleRate m) (BufferSize m) (SimulationSpeed m)
     (bUseProceduralGeneration m) (bUsePhysicsAudio m)
     (bUseResonanceSynthesis m) (bInitialized m) (LastFrameTime m) h.

Definition Initialize (m : manager) : manager :=
  let world :=
    FPhysicsWorld.SetGravity (PhysicsWorld m)
      (FVector3.mk (Float32.of_Z 0) (- Float32.lit 981 100)%f32 (Float32.of_Z 0)) in
  let c := ProceduralController m in
  let c := FProceduralController.SetFrequencyRange c
             (Float32.of_Z 100) (Float32.of_Z 2000) in
  let c := FProceduralController.SetAmplitudeRange c
             (Float32.lit 1 10) (Float32.lit 8 10) in
  let c := FProceduralController.SetDurationRange c
             (Float32.lit 1 10) (Float32.of_Z 1) in
  mk world (AudioPhysicsIntegration m) c
     (SampleRate m) (BufferSize m) (SimulationSpeed m)
     (bUseProceduralGeneration m) (bUsePhysicsAudio m)
     (bUseResonanceSynthesis m) true (LastFrameTime m) (FrameTimeHistory m).

(** The constructor: member initialisers, then [Initialize()]. *)
Definition new (InSampleRate : float) (InBufferSize : Z) : manager :=
  Initialize
    (mk FPhysicsWorld_new (FAudioPhysicsSandbox_new InSampleRate)
        FProceduralController_new InSampleRate InBufferSize (Float32.of_Z 1)
        true true true false (Float32.of_Z 0) []).

(** [Buffer.SetNum(BufferSize * 2)] followed by the loop that stores [0.0f]
    in every element (lines 44-48, 69-73 and 83-87). *)
Definition Silence (m : manager) (Buffer : list float) : option (list float) :=
  Buffer ← TArray.SetNum Float32.zero Buffer (BufferSize m * 2);
  for_upto (TArray.Num Buffer)
    (fun i Buffer => TArray.Set_ Buffer i Float32.zero) Buffer.

(** Lines 142-163 of [ProcessProceduralAudio]: one [GenerateParameters]
    call and the local oscillator configured from its result.  Returns the
    oscillator as it is when it is asked for samples, the parameters and the
    controller after the call. *)
Definition ProceduralVoice (m : manager)
  : FOscillator.t * FProceduralController.ParameterSet * FProceduralController.t :=
  let '(params, c) :=
    FProceduralController.GenerateParameters (ProceduralController m) in
  let Frequency := FProceduralController.OutFrequency params in
  let Amplitude := FProceduralController.OutAmplitude params in
  let Richness := FProceduralController.OutSpectralRichness params in
  let Osc := FOscillator_new (SampleRate m) in
  let Osc := FOscillator_SetFrequency Osc Frequency in
  let Osc := FOscillator_SetAmplitude Osc (Amplitude * Float32.lit 3 10)%f32 in
  let Osc :=
    if (Richness <? TriangleThreshold)%f32
    then FOscillator.SetWaveform Osc FOscillator.Sine
    else if (Richness <? SawtoothThreshold)%f32
    then FOscillator.SetWaveform Osc FOscillator.Triangle
    else FOscillator.SetWaveform Osc FOscillator.Sawtooth in
  (Osc, params, c).

Definition ProcessProceduralAudio (m : manager) (OutBuffer : list float)
  : option (list float * FProceduralController.t) :=
  OutBuffer ← TArray.SetNum Float32.zero OutBuffer (BufferSize m * 2);
  let '(Osc, _, c) := ProceduralVoice m in
  let '(_, OutBuffer) := FOscillator_GenerateSamples Osc OutBuffer (BufferSize m) in
  Some (OutBuffer, c).

(** Lines 62-74 of [Update]: the physics-driven stream of the frame. *)
Definition PhysicsStream (store : ObjectStore) (m : manager)
  (world : FPhysicsWorld.t) (AdjustedDeltaTime : float)
  : option (list float * FAudioPhysicsSandbox.t Voices * ObjectStore * FPhysicsWorld.t) :=
  if bUsePhysicsAudio m then
    let '(a, store, world, PhysicsAudioBuffer) :=
      FAudioPhysicsSandbox_Update (AudioPhysicsIntegration m) store world
        AdjustedDeltaTime [] (BufferSize m) in
    Some (PhysicsAudioBuffer, a, store, world)
  else
    PhysicsAudioBuffer ← Silence m [];
    Some (PhysicsAudioBuffer, AudioPhysicsIntegration m, store, world).

(** Lines 76-88 of [Update]: the procedurally-driven stream of the frame. *)
Definition ProceduralStream (m : manager)
  : option (list float * FProceduralController.t) :=
  if bUseProceduralGeneration m then ProcessProceduralAudio m []
  else
    ProceduralAudioBuffer ← Silence m [];
    Some (ProceduralAudioBuffer, ProceduralController m).

(** Lines 90-97 of [Update]: the mixing loop. *)
Definition MixStreams (m : manager)
  (PhysicsAudioBuffer ProceduralAudioBuffer OutAudioBuffer : list float)
  : option (list float) :=
  OutAudioBuffer ← TArray.SetNum Float32.zero OutAudioBuffer (BufferSize m * 2);
  for_upto (TArray.Num OutAudioBuffer)
    (fun i OutAudioBuffer =>
       p ← TArray.Get PhysicsAudioBuffer i;
       r ← TArray.Get ProceduralAudioBuffer i;
       OutAudioBuffer ← TArray.Set_ OutAudioBuffer i (Blend p r);
       x ← TArray.Get OutAudioBuffer i;
       TArray.Set_ OutAudioBuffer i
         (FMath.Clamp x (- Float32.of_Z 1)%f32 (Float32.of_Z 1)))
    OutAudioBuffer.

(** Lines 99-104 of [Update]. *)
Definition TrackPerformance (m : manager) : manager :=
  let h := TArray.Add (FrameTimeHistory m) (LastFrameTime m) in
  with_history m (if 100 <? TArray.Num h then TArray.RemoveFirst h else h).

(** [Update]: the returned sample count, [OutAudioBuffer] after the call,
    the shared objects and the manager after the call; [None] when an array
    is given an invalid size or is read or written out of range. *)
Definition Update (store : ObjectStore) (m : manager) (DeltaTime : float)
  (OutAudioBuffer : list float)
  : option (Z * list float * ObjectStore * manager) :=
  if negb (bInitialized m) then
    OutAudioBuffer ← Silence m OutAudioBuffer;
    Some (BufferSize m, OutAudioBuffer, store, m)
  else
    let AdjustedDeltaTime := (DeltaTime * SimulationSpeed m)%f32 in
    let '(store, world) :=
      FPhysicsWorld_SimulateStep store (PhysicsWorld m) AdjustedDeltaTime in
    '(PhysicsAudioBuffer, a, store, world) ←
      PhysicsStream store m world AdjustedDeltaTime;
    '(ProceduralAudioBuffer, c) ← ProceduralStream m;
    OutAudioBuffer ←
      MixStreams m PhysicsAudioBuffer ProceduralAudioBuffer OutAudioBuffer;
    Some (BufferSize m, OutAudioBuffer, store,
          TrackPerformance (with_components m world a c)).

Definition AddPhysicsObject (m : manager) (Object : ObjectPtr) : manager :=
  with_components m
    (FPhysicsWorld_AddObject (PhysicsWorld m) Object)
    (FAudioPhysicsSandbox_RegisterPhysicsObject (AudioPhysicsIntegration m) Object)
    (ProceduralController m).

Definition RemovePhysicsObject (m : manager) (Object : ObjectPtr) : manager :=
  with_components m
    (FPhysicsWorld_RemoveObject (PhysicsWorld m) Object)
    (FAudioPhysicsSandbox_UnregisterPhysicsObject (AudioPhysicsIntegration m) Object)
    (ProceduralController m).

Definition SetMasterVolume (m : manager) (Volume : float) : manager :=
  with_components m (PhysicsWorld m)
    (FAudioPhysicsSandbox.SetMasterVolume (AudioPhysicsIntegration m)
       (FMath.Clamp Volume (Float32.of_Z 0) (Float32.of_Z 1)))
    (ProceduralController m).

Definition GetStats (m : manager) : bool * FSandboxStats :=
  (true,
   mkStats
     (TArray.Num (FPhysicsWorld.GetObjects (PhysicsWorld m)))
     (FImpactEventQueue.GetQueueSize
        (FAudioPhysicsSandbox.GetImpactQueue (AudioPhysicsIntegration m)))
     (Float32.lit 5 10)
     (LastFrameTime m)).

(** The frames of a session: [Update] called once per entry of
    [DeltaTimes], each call receiving the buffer the previous one left.
    Returns the buffer contents after each call. *)
Fixpoint Frames (store : ObjectStore) (m : manager) (OutAudioBuffer : list float)
  (DeltaTimes : list float) : option (list (Z * list float)) :=
  match DeltaTimes with
  | [] => Some []
  | DeltaTime :: rest =>
      '(n, OutAudioBuffer, store, m) ← Update store m DeltaTime OutAudioBuffer;
      outs ← Frames store m OutAudioBuffer rest;
      Some ((n, OutAudioBuffer) :: outs)
  end.

End Methods.

End FSandboxManager.

Module FResonantSurfaceSandbox.

(** The derived class: the base object and the resonators it created. *)
Record t (Voices : Type) := mk {
  Manager : FSandboxManager.t Voices;
  Resonators : list ObjectPtr
}.

Arguments mk {Voices}.
Arguments Manager {Voices}.
Arguments Resonators {Voices}.

Section Methods.
Context {Voices : Type} {collab : Collaborators Voices}.

Definition new (InSampleRate : float) : t Voices :=
  mk (FSandboxManager.new InSampleRate 2048) [].

(** A pointer that no live object uses: what [MakeShared] hands out. *)
Definition fresh_ptr (store : ObjectStore) : ObjectPtr :=
  fresh (dom store).

Definition AddResonator (store : ObjectStore) (s : t Voices)
  (NaturalFrequency Quality Mass : float) : ObjectStore * t Voices :=
  let Sphere := FPhysicsSphere_new (Float32.lit 3 10) Mass in
  let Sphere :=
    FPhysicsSphere.on_object
      (fun o =>
         FPhysicsObject.SetPosition o
           (FVector3.mk
              (Float32.of_Z (TArray.Num (Resonators s)) * Float32.of_Z 1)%f32
              (Float32.of_Z 2) (Float32.of_Z 0)))
      Sphere in
  let p := fresh_ptr store in
  (<[p := Sphere]> store,
   mk (FSandboxManager.AddPhysicsObject (Manager s) p)
      (TArray.Add (Resonators s) p)).

(** [ExciteResonator]: [None] would be a failed range check or a null
    pointer. *)
Definition ExciteResonator (store : ObjectStore) (s : t Voices)
  (Index : Z) (Energy : float) : option (ObjectStore * t Voices) :=
  if (0 <=? Index) && (Index <? TArray.Num (Resonators s)) then
    p ← TArray.Get (Resonators s) Index;
    Sphere ← store !! p;
    let Impulse :=
      FVector3.mk (Float32.of_Z 0) (- Energy * Float32.of_Z 10)%f32
        (Float32.of_Z 0) in
    Some (<[p := FPhysicsSphere.on_object
                   (fun o => FPhysicsObject_ApplyImpulse o Impulse) Sphere]> store,
          s)
  else Some (store, s).

Definition SetSurfaceDamping (store : ObjectStore) (s : t Voices)
  (Damping : float) : ObjectStore :=
  fold_left
    (fun store p =>
       match store !! p with
       | Some Sphere =>
           <[p := FPhysicsSphere.on_object
                    (fun o =>
                       FPhysicsObject.SetDamping o
                         (FMath.Clamp (Float32.of_Z 1 - Damping)%f32
                            (Float32.lit 8 10) (Float32.of_Z 1)))
                    Sphere]> store
       | None => store
       end)
    (Resonators s) store.

End Methods.

End FResonantSurfaceSandbox.

(** ** A reference configuration of the collaborators

    Small executable stand-ins for the bodies that are not part of the
    sources, used to run the model on concrete inputs: the physics voice is
    a constant signal of level [2.0], the oscillator a constant signal of its
    amplitude, and every generator returns [0.5]. *)

Module Reference.

Definition half : float := Float32.lit 5 10.

Definition bodies : ProceduralBodies := {|
  FPerlinNoiseGenerator_GetNextValue := fun g => (half, g);
  FChaoticGenerator_GetNextValue := fun g => (half, g);
  FSpectralGenerator_GetNextValue := fun g => (half, g);
  FMarkovGenerator_GetNextValue := fun g => (half, g);
  DefaultSlotValue := half;
  RepairRange := fun lo hi => (hi, lo)
|}.

Definition sphere (Radius Mass : float) : FPhysicsSphere.t :=
  FPhysicsSphere.mk
    (FPhysicsObject.mk FVector3.zero FVector3.zero FVector3.zero FVector3.zero
       Mass (Float32.of_Z 1))
    Radius.

Definition oscillator (InSampleRate : float) : FOscillator.t :=
  FOscillator.mk InSampleRate Float32.zero (Float32.of_Z 440) (Float32.of_Z 1)
    FOscillator.Sine [].

Definition collaborators : Collaborators unit := {|
  FPhysicsWorld_new := FPhysicsWorld.mk [] FVector3.zero;
  FPhysicsWorld_AddObject := fun w p =>
    FPhysicsWorld.mk (TArray.Add (FPhysicsWorld.PhysicsObjects w) p)
      (FPhysicsWorld.Gravity w);
  FPhysicsWorld_RemoveObject := fun w p =>
    FPhysicsWorld.mk
      (filter (fun p' => p' ≠ p) (FPhysicsWorld.PhysicsObjects w))
      (FPhysicsWorld.Gravity w);
  FPhysicsWorld_SimulateStep := fun store w _ => (store, w);
  FPhysicsSphere_new := sphere;
  FPhysicsObject_ApplyImpulse := fun o Impulse =>
    FPhysicsObject.SetVelocity o Impulse;
  FOscillator_new := oscillator;
  FOscillator_SetFrequency := fun o f =>
    FOscillator.mk (FOscillator.SampleRate o) (FOscillator.CurrentPhase o) f
      (FOscillator.CurrentAmplitude o) (FOscillator.CurrentWaveform o)
      (FOscillator.SineTable o);
  FOscillator_SetAmplitude := fun o a =>
    FOscillator.mk (FOscillator.SampleRate o) (FOscillator.CurrentPhase o)
      (FOscillator.CurrentFrequency o) a (FOscillator.CurrentWaveform o)
      (FOscillator.SineTable o);
  FOscillator_GenerateSamples := fun o _ NumSamples =>
    (o, replicate (Z.to_nat (NumSamples * 2)) (FOscillator.CurrentAmplitude o));
  FAudioPhysicsSandbox_new := fun InSampleRate =>
    FAudioPhysicsSandbox.mk tt
      (FAudioPhysicsMapper.mk (Float32.of_Z 100) (Float32.of_Z 2000)
         (Float32.of_Z 1))
      (FImpactEventQueue.new 256) [] (Float32.of_Z 1) InSampleRate;
  FAudioPhysicsSandbox_Update := fun a store w _ _ NumSamples =>
    (a, store, w, replicate (Z.to_nat (NumSamples * 2)) (Float32.of_Z 2));
  FAudioPhysicsSandbox_RegisterPhysicsObject := fun a p =>
    FAudioPhysicsSandbox.mk (FAudioPhysicsSandbox.AudioVoices a)
      (FAudioPhysicsSandbox.PhysicsMapper a)
      (FAudioPhysicsSandbox.ImpactQueue a)
      (TArray.Add (FAudioPhysicsSandbox.MonitoredObjects a) p)
      (FAudioPhysicsSandbox.MasterVolume a)
      (FAudioPhysicsSandbox.SampleRate a);
  FAudioPhysicsSandbox_UnregisterPhysicsObject := fun a p =>
    FAudioPhysicsSandbox.mk (FAudioPhysicsSandbox.AudioVoices a)
      (FAudioPhysicsSandbox.PhysicsMapper a)
      (FAudioPhysicsSandbox.ImpactQueue a)
      (filter (fun p' => p' ≠ p) (FAudioPhysicsSandbox.MonitoredObjects a))
      (FAudioPhysicsSandbox.MasterVolume a)
      (FAudioPhysicsSandbox.SampleRate a);
  FProceduralController_new :=
    FProceduralController.mk None None None None
      (Float32.of_Z 20) (Float32.of_Z 20000)
      Float32.zero (Float32.of_Z 1) (Float32.lit 1 100) (Float32.of_Z 10);
  procedural_bodies := bodies
|}.

(** The same collaborators with a physics voice of level [0.5], which the
    mix does not clip. *)
Definition quiet_collaborators : Collaborators unit := {|
  FPhysicsWorld_new := FPhysicsWorld_new (Collaborators := collaborators);
  FPhysicsWorld_AddObject :=
    FPhysicsWorld_AddObject (Collaborators := collaborators);
  FPhysicsWorld_RemoveObject :=
    FPhysicsWorld_RemoveObject (Collaborators := collaborators);
  FPhysicsWorld_SimulateStep :=
    FPhysicsWorld_SimulateStep (Collaborators := collaborators);
  FPhysicsSphere_new := sphere;
  FPhysicsObject_ApplyImpulse :=
    FPhysicsObject_ApplyImpulse (Collaborators := collaborators);
  FOscillator_new := oscillator;
  FOscillator_SetFrequency :=
    FOscillator_SetFrequency (Collaborators := collaborators);
  FOscillator_SetAmplitude :=
    FOscillator_SetAmplitude (Collaborators := collaborators);
  FOscillator_GenerateSamples :=
    FOscillator_GenerateSamples (Collaborators := collaborators);
  FAudioPhysicsSandbox_new :=
    FAudioPhysicsSandbox_new (Collaborators := collaborators);
  FAudioPhysicsSandbox_Update := fun a store w _ _ NumSamples =>
    (a, store, w, replicate (Z.to_nat (NumSamples * 2)) half);
  FAudioPhysicsSandbox_RegisterPhysicsObject :=
    FAudioPhysicsSandbox_RegisterPhysicsObject (Collaborators := collaborators);
  FAudioPhysicsSandbox_UnregisterPhysicsObject :=
    FAudioPhysicsSandbox_UnregisterPhysicsObject (Collaborators := collaborators);
  FProceduralController_new :=
    FProceduralController_new (Collaborators := collaborators);
  procedural_bodies := bodies
|}.

(** An impact event that carries the identifier [id]. *)
Definition impact (id : Z) : FImpactEvent :=
  mkFImpactEvent FVector3.zero FVector3.zero (Float32.of_Z 1)
    (Float32.of_Z 200) (Float32.lit 5 10) id.

(** A manager with [BufferSize = 2], built by the constructor. *)
Definition manager : FSandboxManager.t unit :=
  FSandboxManager.new (collab := collaborators) (Float32.of_Z 48000) 2.

(** The same manager over the quiet collaborators. *)
Definition quiet_manager : FSandboxManager.t unit :=
  FSandboxManager.new (collab := quiet_collaborators) (Float32.of_Z 48000) 2.

End Reference.

(** ** Further members of the headers, of SandboxManager.cpp and of
    Examples.cpp *)

(** More of the engine's helpers. *)
Module EngineMath.

(** [FMath::Abs] on [float] is [fabsf]: it clears the sign bit. *)
Definition Abs (A : float) : float := SFabs A.

(** [FMath::Sqrt] is the correctly rounded [sqrtf]. *)
Definition Sqrt (A : float) : float := SFsqrt Float32.prec Float32.emax A.

(** [FMath::Max] on [int32]: [A >= B ? A : B]. *)
Definition MaxInt (A B : Z) : Z := if B <=? A then A else B.

End EngineMath.

(** [for (int32 i = 0; i < n; ++i) body(i)] with a body that cannot fail. *)
Fixpoint for_each {S : Type} (count : nat) (i : Z) (body : Z -> S -> S) (s : S)
  : S :=
  match count with
  | O => s
  | S count' => for_each count' (i + 1) body (body i s)
  end.

Definition for_range {S : Type} (n : Z) (body : Z -> S -> S) (s : S) : S :=
  for_each (Z.to_nat n) 0 body s.

(** The operators and member functions of [FVector3] (PhysicsCore.h). *)
Module FVector3Ops.
Import FVector3.

Definition operator_plus (a Other : t) : t :=
  mk (X a + X Other)%f32 (Y a + Y Other)%f32 (Z a + Z Other)%f32.

Definition operator_times (a : t) (Scalar : float) : t :=
  mk (X a * Scalar)%f32 (Y a * Scalar)%f32 (Z a * Scalar)%f32.

Definition Dot (a Other : t) : float :=
  (X a * X Other + Y a * Y Other + Z a * Z Other)%f32.

Definition Magnitude (a : t) : float :=
  EngineMath.Sqrt (X a * X a + Y a * Y a + Z a * Z a)%f32.

End FVector3Ops.

(** Inline members of the physics classes (PhysicsCore.h). *)
Module PhysicsInline.

Definition GetSpeed (o : FPhysicsObject.t) : float :=
  FVector3Ops.Magnitude (FPhysicsObject.Velocity o).

Definition SetRadius (s : FPhysicsSphere.t) (NewRadius : float)
  : FPhysicsSphere.t :=
  FPhysicsSphere.mk (FPhysicsSphere.Object s)
    (FMath.Max NewRadius (Float32.lit 1 10)).

End PhysicsInline.

(** Inline setters of the generators (ProceduralGeneration.h). *)
Module GeneratorInline.

Definition SetOctaves (g : FPerlinNoiseGenerator.t) (NumOctaves : Z)
  : FPerlinNoiseGenerator.t :=
  FPerlinNoiseGenerator.mk (FPerlinNoiseGenerator.Seed g)
    (FPerlinNoiseGenerator.CurrentTime g) (EngineMath.MaxInt 1 NumOctaves)
    (FPerlinNoiseGenerator.Persistence g) (FPerlinNoiseGenerator.Scale g).

Definition SetPersistence (g : FPerlinNoiseGenerator.t) (InPersistence : float)
  : FPerlinNoiseGenerator.t :=
  FPerlinNoiseGenerator.mk (FPerlinNoiseGenerator.Seed g)
    (FPerlinNoiseGenerator.CurrentTime g) (FPerlinNoiseGenerator.Octaves g)
    (FMath.Clamp InPersistence (Float32.of_Z 0) (Float32.of_Z 1))
    (FPerlinNoiseGenerator.Scale g).

Definition SetScale (g : FPerlinNoiseGenerator.t) (InScale : float)
  : FPerlinNoiseGenerator.t :=
  FPerlinNoiseGenerator.mk (FPerlinNoiseGenerator.Seed g)
    (FPerlinNoiseGenerator.CurrentTime g) (FPerlinNoiseGenerator.Octaves g)
    (FPerlinNoiseGenerator.Persistence g)
    (FMath.Max InScale (Float32.lit 1 10)).

Definition SetChaosParameter (g : FChaoticGenerator.t) (Value : float)
  : FChaoticGenerator.t :=
  FChaoticGenerator.mk (FChaoticGenerator.ChaoticType g)
    (FMath.Clamp Value (Float32.of_Z 0) (Float32.of_Z 4))
    (FChaoticGenerator.X g) (FChaoticGenerator.Y g).

End GeneratorInline.

Module FAdaptiveProceduralSystem.

Record t := mk {
  ProcController : FProceduralController.t;
  PreviousMetrics : list float;
  MetricHistory : list float;
  AdaptationRate : float
}.

Definition SetAdaptationRate (a : t) (Rate : float) : t :=
  mk (ProcController a) (PreviousMetrics a) (MetricHistory a)
     (FMath.Clamp Rate (Float32.of_Z 0) (Float32.of_Z 1)).

Definition GetAdaptationRate (a : t) : float := AdaptationRate a.

End FAdaptiveProceduralSystem.

(** The private helper [MixAudio] of [FSandboxManager] and sessions of
    frames. *)
Module FSandboxManagerMore.
Import FSandboxManager.

Section Methods.
Context {Voices : Type} {collab : Collaborators Voices}.

(** [MixAudio]: the loop runs while [i] is below both array sizes, that
    is, up to the smaller one. *)
Definition MixAudio (OutBuffer InBuffer : list float) (Volume : float)
  : option (list float) :=
  for_upto (Z.min (TArray.Num OutBuffer) (TArray.Num InBuffer))
    (fun i OutBuffer =>
       o ← TArray.Get OutBuffer i;
       x ← TArray.Get InBuffer i;
       TArray.Set_ OutBuffer i ((o + x * Volume) * Float32.lit 5 10)%f32)
    OutBuffer.

(** [Update] called once per entry of [DeltaTimes], on one output buffer;
    the objects, the manager and the buffer after the last call. *)
Fixpoint Session (store : ObjectStore) (m : t Voices)
  (OutAudioBuffer : list float) (DeltaTimes : list float)
  : option (ObjectStore * t Voices * list float) :=
  match DeltaTimes with
  | [] => Some (store, m, OutAudioBuffer)
  | DeltaTime :: rest =>
      '(_, OutAudioBuffer, store, m) ← Update store m DeltaTime OutAudioBuffer;
      Session store m OutAudioBuffer rest
  end.

End Methods.

End FSandboxManagerMore.

(** [FImpactSynthesizer] objects as the granular sandbox sees them: it only
    constructs them. *)
Class GrainCollaborators := {
  ImpactVoice : Type;
  FImpactSynthesizer_new : float -> ImpactVoice
}.

Module FGranularPhysicsSandbox.

Record t (Voices IV : Type) := mk {
  Manager : FSandboxManager.t Voices;
  GrainDuration : float;
  GrainOverlap : Z;
  GrainVoices : list IV
}.

Arguments mk {Voices IV}.
Arguments Manager {Voices IV}.
Arguments GrainDuration {Voices IV}.
Arguments GrainOverlap {Voices IV}.
Arguments GrainVoices {Voices IV}.

Section Methods.
Context {Voices : Type} {collab : Collaborators Voices}
        {grains : GrainCollaborators}.

(** The loop shared by the constructor and [ConfigureGrains]: one
    [MakeShared<FImpactSynthesizer>(Rate)] added per iteration. *)
Definition add_voices (Rate : float) (Count : Z) (voices : list ImpactVoice)
  : list ImpactVoice :=
  for_range Count
    (fun _ voices => TArray.Add voices (FImpactSynthesizer_new Rate)) voices.

Definition new (InSampleRate : float) : t Voices ImpactVoice :=
  mk (FSandboxManager.new InSampleRate 2048) (Float32.lit 5 100) 4
     (add_voices InSampleRate 4 []).

Definition ConfigureGrains (s : t Voices ImpactVoice)
  (InGrainDuration : float) (InGrainOverlap : Z) : t Voices ImpactVoice :=
  let Overlap := EngineMath.MaxInt InGrainOverlap 1 in
  mk (Manager s) (FMath.Max InGrainDuration (Float32.lit 1 100)) Overlap
     (add_voices (Float32.of_Z 48000) Overlap []).

End Methods.

End FGranularPhysicsSandbox.

(** Calls on a resonant-surface sandbox and their effect, in order. *)
Module ResonantCalls.
Import FResonantSurfaceSandbox.

Inductive call :=
| CallAddResonator (NaturalFrequency Quality Mass : float)
| CallExciteResonator (Index : Z) (Energy : float)
| CallSetSurfaceDamping (Damping : float).

Section Methods.
Context {Voices : Type} {collab : Collaborators Voices}.

Definition step (st : ObjectStore * t Voices) (c : call)
  : option (ObjectStore * t Voices) :=
  match c with
  | CallAddResonator f q mass => Some (AddResonator (fst st) (snd st) f q mass)
  | CallExciteResonator i e => ExciteResonator (fst st) (snd st) i e
  | CallSetSurfaceDamping d => Some (SetSurfaceDamping (fst st) (snd st) d, snd st)
  end.

Fixpoint run (st : ObjectStore * t Voices) (calls : list call)
  : option (ObjectStore * t Voices) :=
  match calls with
  | [] => Some st
  | c :: rest => st' ← step st c; run st' rest
  end.

(** Every resonator of the sandbox is a live object. *)
Definition resonators_live (st : ObjectStore * t Voices) : Prop :=
  forall p, p ∈ Resonators (snd st) -> is_Some (fst st !! p).

(** What the calls maintain, given the objects [store0] that were there
    before the sandbox created any: its resonators are live and pairwise
    distinct, and none of them is one of the objects of [store0], which are
    all as they were. *)
Definition consistent (store0 : ObjectStore) (st : ObjectStore * t Voices)
  : Prop :=
  resonators_live st /\
  NoDup (Resonators (snd st)) /\
  forall p, is_Some (store0 !! p) ->
            fst st !! p = store0 !! p /\ p ∉ Resonators (snd st).

(** How many of the calls are [AddResonator] calls. *)
Fixpoint count_added (calls : list call) : nat :=
  match calls with
  | [] => O
  | CallAddResonator _ _ _ :: rest => S (count_added rest)
  | _ :: rest => count_added rest
  end.

End Methods.

End ResonantCalls.

(** Examples.cpp: the peak level of a buffer. *)
Module Examples.

(** The body of the loop: [PeakLevel] after [Sample] has been looked at. *)
Definition peak_step (PeakLevel Sample : float) : float :=
  let AbsSample := EngineMath.Abs Sample in
  if (PeakLevel <? AbsSample)%f32 then AbsSample else PeakLevel.

Definition AnalyzePeakLevel (AudioBuffer : list float) : float :=
  fold_left peak_step AudioBuffer (Float32.of_Z 0).

End Examples.

(** * Properties *)

(** ** The impact queue *)

Module QueueProperties.
Import FImpactEventQueue.

Lemma QueueImpact_MaxSize q e : MaxSize (QueueImpact q e) = MaxSize q.
Proof. unfold QueueImpact. destruct (_ <? _); reflexivity. Qed.

Lemma DequeueImpact_MaxSize q out :
  MaxSize (snd (DequeueImpact q out)) = MaxSize q.
Proof. unfold DequeueImpact. destruct (ImpactQueue q); reflexivity. Qed.

Lemma step_MaxSize s c : MaxSize (queue (step s c)) = MaxSize (queue s).
Proof.
  destruct c as [e|]; simpl.
  - destruct (_ <? _); simpl; apply QueueImpact_MaxSize.
  - pose proof (DequeueImpact_MaxSize (queue s) FImpactEvent_new) as H.
    destruct (DequeueImpact _ _) as [[[] ?] ?]; simpl in *; exact H.
Qed.

Lemma GetQueueSize_app q e C :
  GetQueueSize (mk (TArray.Add (ImpactQueue q) e) C) = GetQueueSize q + 1.
Proof.
  unfold GetQueueSize, TArray.Num, TArray.Add; simpl.
  rewrite length_app; simpl. lia.
Qed.

Lemma step_bounded s c :
  GetQueueSize (queue s) <= MaxSize (queue s) ->
  GetQueueSize (queue (step s c)) <= MaxSize (queue (step s c)).
Proof.
  intros Hle. rewrite step_MaxSize.
  destruct c as [e|]; simpl.
  - assert (GetQueueSize (QueueImpact (queue s) e) <= MaxSize (queue s)) as H.
    { unfold QueueImpact. destruct (Z.ltb_spec (GetQueueSize (queue s)) (MaxSize (queue s))).
      - rewrite GetQueueSize_app. lia.
      - exact Hle. }
    destruct (_ <? _); simpl; exact H.
  - unfold DequeueImpact. destruct (ImpactQueue (queue s)) as [|e rest] eqn:E; simpl.
    + exact Hle.
    + unfold GetQueueSize, TArray.Num in *. rewrite E in Hle. simpl in *. lia.
Qed.

Lemma step_fifo s c : fifo s -> fifo (step s c).
Proof.
  unfold fifo. intros H. destruct c as [e|]; simpl.
  - unfold QueueImpact.
    destruct (Z.ltb_spec (GetQueueSize (queue s)) (MaxSize (queue s))).
    + rewrite GetQueueSize_app.
      destruct (Z.ltb_spec (GetQueueSize (queue s)) (GetQueueSize (queue s) + 1)); [|lia].
      simpl. unfold TArray.Add. rewrite H, app_assoc. reflexivity.
    + rewrite Z.ltb_irrefl. simpl. exact H.
  - unfold DequeueImpact. destruct (ImpactQueue (queue s)) as [|e rest] eqn:E; simpl.
    + rewrite E. exact H.
    + rewrite H, <- app_assoc. reflexivity.
Qed.

Lemma fold_step_invariant (P : run_state -> Prop) :
  (forall s c, P s -> P (step s c)) ->
  forall calls s, P s -> P (fold_left step calls s).
Proof.
  intros Hstep calls. induction calls as [|c calls IH]; intros s Hs; simpl.
  - exact Hs.
  - apply IH, Hstep, Hs.
Qed.

Lemma drain_empty fuel q :
  ImpactQueue q = [] -> drain fuel q = ([], q).
Proof.
  intros E. destruct fuel; simpl; [reflexivity|].
  unfold DequeueImpact. rewrite E. reflexivity.
Qed.

(** C2. Whatever calls are made on a queue constructed with a capacity
    [C >= 0], its size never exceeds [C]; in every state so reached
    [QueueImpact] appends the event while the size is below [C] and drops
    the incoming event, leaving the queue as it is, once the size is [C]. *)
Theorem QueueImpact_never_exceeds_capacity (C : Z) (calls : list call) :
  0 <= C ->
  let q := queue (run (new C) calls) in
  MaxSize q = C /\
  GetQueueSize q <= C /\
  forall Impact,
    (GetQueueSize q < C ->
     QueueImpact q Impact = mk (ImpactQueue q ++ [Impact]) C) /\
    (GetQueueSize q = C -> QueueImpact q Impact = q).
Proof.
  intros HC q.
  assert (MaxSize q = C) as HM.
  { subst q. unfold run.
    apply (fold_step_invariant (fun s => MaxSize (queue s) = C)).
    - intros s c Hs. rewrite step_MaxSize. exact Hs.
    - reflexivity. }
  assert (GetQueueSize q <= MaxSize q) as HS.
  { subst q. unfold run.
    apply (fold_step_invariant
             (fun s => GetQueueSize (queue s) <= MaxSize (queue s))).
    - apply step_bounded.
    - simpl. unfold GetQueueSize, TArray.Num. simpl. lia. }
  split; [exact HM|]. split; [lia|].
  intros Impact. unfold QueueImpact. rewrite HM. split; intros H.
  - destruct (Z.ltb_spec (GetQueueSize q) C); [reflexivity|lia].
  - destruct (Z.ltb_spec (GetQueueSize q) C); [lia|reflexivity].
Qed.

Lemma QueueImpact_never_exceeds_capacity_witness :
  let calls := [Queue (Reference.impact 1); Queue (Reference.impact 2);
                Queue (Reference.impact 3); Dequeue] in
  0 <= 2 /\
  GetQueueSize (queue (run (new 2) calls)) <= 2.
Proof.
  split; [lia|].
  apply (QueueImpact_never_exceeds_capacity 2
           [Queue (Reference.impact 1); Queue (Reference.impact 2);
            Queue (Reference.impact 3); Dequeue]).
  lia.
Defined.

(** C3. In every state reached by queueing and dequeueing, the events
    taken in are exactly the events already handed out followed by the
    queue contents, so events leave in the order they entered;
    [DequeueImpact] on a non-empty queue returns true with the oldest event
    and removes it; on an empty queue it returns false and leaves the queue
    and the caller's event untouched, however often it is called. *)
Theorem DequeueImpact_oldest_first (C : Z) (calls : list call)
  (OutImpact : FImpactEvent) :
  let s := run (new C) calls in
  retained s = dequeued s ++ ImpactQueue (queue s) /\
  (forall oldest rest,
     ImpactQueue (queue s) = oldest :: rest ->
     DequeueImpact (queue s) OutImpact
     = (true, oldest, mk rest (MaxSize (queue s)))) /\
  (ImpactQueue (queue s) = [] ->
   DequeueImpact (queue s) OutImpact = (false, OutImpact, queue s) /\
   forall fuel, drain fuel (queue s) = ([], queue s)).
Proof.
  intros s. split; [|split].
  - subst s. unfold run. apply (fold_step_invariant fifo).
    + apply step_fifo.
    + reflexivity.
  - intros oldest rest E. unfold DequeueImpact. rewrite E. reflexivity.
  - intros E. split.
    + unfold DequeueImpact. rewrite E. reflexivity.
    + intros fuel. apply drain_empty, E.
Qed.

(** Three hundred events offered to a queue of capacity 256: the first 256
    are kept and come out in the order they were offered. *)
Example overflow_300_into_256 :
  let offered := map (fun i => Reference.impact (Z.of_nat i)) (seq 0 300) in
  let s := run (new 256) (map Queue offered) in
  GetQueueSize (queue s) = 256 /\
  fst (drain 300 (queue s)) = firstn 256 offered /\
  ImpactQueue (snd (drain 300 (queue s))) = [].
Proof. vm_compute. repeat split. Qed.

End QueueProperties.

(** ** IEEE comparison and clamping *)

Module FloatProperties.

Lemma compare_cont_swap (p q : positive) :
  Pos.compare_cont Eq q p = CompOpp (Pos.compare_cont Eq p q).
Proof. symmetry. apply (Pos.compare_cont_antisym p q Eq). Qed.

Lemma SFcompare_swap (x y : float) :
  SFcompare y x = option_map CompOpp (SFcompare x y).
Proof.
  destruct x as [sx|sx| |sx mx ex], y as [sy|sy| |sy my ey]; simpl;
    try destruct sx; try destruct sy; try reflexivity.
  all: rewrite (Z.compare_antisym ex ey), (compare_cont_swap mx my).
  all: destruct (ex ?= ey); simpl; try reflexivity.
  all: destruct (Pos.compare_cont Eq mx my); reflexivity.
Qed.

Lemma SFcompare_refl (x : float) :
  SFcompare x x = None \/ SFcompare x x = Some Eq.
Proof.
  destruct x as [s|s| |s m e]; simpl; auto; destruct s; auto;
    rewrite Z.compare_refl, Pos.compare_cont_refl; auto.
Qed.

Lemma leb_refl (x y : float) : Float32.leb x y = true -> Float32.leb x x = true.
Proof.
  unfold Float32.leb, SFleb. intros H.
  destruct (SFcompare_refl x) as [E|E]; rewrite E; [|reflexivity].
  destruct x; simpl in E; try discriminate;
    try (destruct s; discriminate).
Qed.

Lemma leb_refl_r (x y : float) : Float32.leb x y = true -> Float32.leb y y = true.
Proof.
  unfold Float32.leb, SFleb. intros H.
  destruct (SFcompare_refl y) as [E|E]; rewrite E; [|reflexivity].
  destruct y; simpl in E; try discriminate;
    try (destruct s; discriminate).
  destruct x; simpl in H; discriminate.
Qed.

(** [!(x < y)] for comparable [x] and [y] is [y <= x]. *)
Lemma not_ltb_leb (x y : float) :
  Float32.ltb x y = false -> SFcompare x y <> None -> Float32.leb y x = true.
Proof.
  unfold Float32.ltb, Float32.leb, SFltb, SFleb.
  rewrite (SFcompare_swap x y).
  destruct (SFcompare x y) as [[]|]; simpl; congruence.
Qed.

Lemma ltb_leb (x y : float) : Float32.ltb x y = true -> Float32.leb x y = true.
Proof.
  unfold Float32.ltb, Float32.leb, SFltb, SFleb.
  destruct (SFcompare x y) as [[]|]; congruence.
Qed.

Lemma leb_not_ltb (x y : float) :
  Float32.leb x y = true -> Float32.ltb y x = false.
Proof.
  unfold Float32.ltb, Float32.leb, SFltb, SFleb.
  rewrite (SFcompare_swap x y).
  destruct (SFcompare x y) as [[]|]; simpl; congruence.
Qed.

Lemma compare_comparable (x y z : float) :
  SFcompare x y <> None -> SFcompare y z <> None -> SFcompare x z <> None.
Proof.
  destruct x as [sx|sx| |sx mx ex], y as [sy|sy| |sy my ey],
    z as [sz|sz| |sz mz ez]; simpl; congruence.
Qed.

(** The clamp of any float, NaN and the infinities included, lies in the
    closed interval it is clamped to. *)
Lemma Clamp_within (lo hi x : float) :
  Float32.leb lo hi = true ->
  Float32.within lo hi (FMath.Clamp x lo hi) = true.
Proof.
  intros Hle. unfold Float32.within, FMath.Clamp.
  destruct (Float32.ltb x lo) eqn:Hlo.
  - rewrite Hle, (leb_refl _ _ Hle). reflexivity.
  - destruct (Float32.ltb x hi) eqn:Hhi.
    + rewrite (ltb_leb _ _ Hhi), andb_true_r.
      apply not_ltb_leb; [exact Hlo|].
      apply (compare_comparable x hi lo).
      * unfold Float32.ltb, SFltb in Hhi.
        destruct (SFcompare x hi); congruence.
      * rewrite (SFcompare_swap lo hi).
        unfold Float32.leb, SFleb in Hle.
        destruct (SFcompare lo hi); simpl; congruence.
    + rewrite Hle, (leb_refl_r _ _ Hle). reflexivity.
Qed.

Lemma Clamp_unit (x : float) :
  Float32.within (- Float32.of_Z 1)%f32 (Float32.of_Z 1)
    (FMath.Clamp x (- Float32.of_Z 1)%f32 (Float32.of_Z 1)) = true.
Proof. apply Clamp_within. reflexivity. Qed.

End FloatProperties.

(** ** Rounding of binary32 products and sums *)

Module RoundingProperties.
Import Rounding.

Lemma digits2_pos_bounds (m : positive) :
  2 ^ (Zpos (digits2_pos m) - 1) <= Zpos m < 2 ^ Zpos (digits2_pos m).
Proof.
  induction m as [m IH|m IH|]; cbn [digits2_pos].
  - rewrite Pos2Z.inj_succ.
    replace (Z.succ (Zpos (digits2_pos m)) - 1) with (Z.succ (Zpos (digits2_pos m) - 1)) by lia.
    rewrite !Z.pow_succ_r by lia. lia.
  - rewrite Pos2Z.inj_succ.
    replace (Z.succ (Zpos (digits2_pos m)) - 1) with (Z.succ (Zpos (digits2_pos m) - 1)) by lia.
    rewrite !Z.pow_succ_r by lia. lia.
  - simpl. lia.
Qed.

Lemma digits2_pos_unique (m : positive) (d : Z) :
  2 ^ (d - 1) <= Zpos m < 2 ^ d -> Zpos (digits2_pos m) = d.
Proof.
  intros [Hlo Hhi]. pose proof (digits2_pos_bounds m) as [Blo Bhi].
  assert (0 < d) as Hd.
  { destruct (Z.lt_ge_cases 0 d) as [|Hneg]; [assumption|].
    destruct (Z.eq_dec d 0) as [->|]; [simpl in Hhi; lia|].
    rewrite (Z.pow_neg_r 2 d) in Hhi by lia. lia. }
  assert (Zpos (digits2_pos m) - 1 < d) as H1.
  { apply (Z.pow_lt_mono_r_iff 2); lia. }
  assert (d - 1 < Zpos (digits2_pos m)) as H2.
  { apply (Z.pow_lt_mono_r_iff 2); lia. }
  lia.
Qed.

Lemma iter_pos_invariant {A} (f : A -> A) (P : Z -> A -> Prop) :
  (forall k x, 0 <= k -> P k x -> P (k + 1) (f x)) ->
  forall p k x, 0 <= k -> P k x -> P (k + Zpos p) (SpecFloat.iter_pos f p x).
Proof.
  intros Hstep p. induction p as [p IH|p IH|]; intros k x Hk HP; cbn [SpecFloat.iter_pos].
  - replace (k + Zpos p~1) with (k + 1 + Zpos p + Zpos p) by lia.
    apply IH; [lia|]. apply IH; [lia|]. apply Hstep; assumption.
  - replace (k + Zpos p~0) with (k + Zpos p + Zpos p) by lia.
    apply IH; [lia|]. apply IH; assumption.
  - apply Hstep; assumption.
Qed.

Lemma shr_1_shifted m0 k mrs :
  0 <= k -> shifted m0 k mrs -> shifted m0 (k + 1) (shr_1 mrs).
Proof.
  intros Hk [Hm (rem & Hm0 & Hrem & Hex)].
  destruct mrs as [m r s]. cbn [shr_m] in *.
  assert (0 < 2 ^ k) as Hpow by (apply Z.pow_pos_nonneg; lia).
  unfold shifted, inexact in *. cbn [shr_m shr_r shr_s] in *.
  rewrite Z.pow_add_r, Z.pow_1_r by lia.
  destruct m as [|[p|p|]|p]; try lia; cbn [shr_1 shr_m shr_r shr_s].
  - split; [lia|]. exists rem. split; [lia|]. split; [lia|].
    simpl. exact Hex.
  - split; [lia|]. exists (2 ^ k + rem). split; [lia|]. split; [lia|].
    simpl. split; [discriminate|lia].
  - split; [lia|]. exists rem. split; [lia|]. split; [lia|].
    simpl. exact Hex.
  - split; [lia|]. exists (2 ^ k + rem). split; [lia|]. split; [lia|].
    simpl. split; [discriminate|lia].
Qed.

Lemma fexp32_eq e : fexp32 e = Z.max (e - 24) (-149).
Proof. reflexivity. Qed.

Lemma shr_fexp_exact (m e : Z) :
  0 <= m ->
  exists mrs e',
    shr_fexp 24 128 m e loc_Exact = (mrs, e') /\
    e' = e + Z.max (fexp32 (Zdigits2 m + e) - e) 0 /\
    shifted m (Z.max (fexp32 (Zdigits2 m + e) - e) 0) mrs.
Proof.
  intros Hm. unfold shr_fexp, shr. cbn [shr_record_of_loc].
  set (n := fexp32 (Zdigits2 m + e) - e).
  assert (shifted m 0 (Build_shr_record m false false)) as H0.
  { split; [exact Hm|]. exists 0. cbn [shr_m]. rewrite Z.pow_0_r.
    split; [lia|]. split; [lia|]. split; reflexivity. }
  destruct n as [|p|p] eqn:En.
  - eexists _, _. split; [reflexivity|]. split; [simpl; lia|]. exact H0.
  - eexists _, _. split; [reflexivity|]. split; [lia|].
    replace (Z.max (Zpos p) 0) with (0 + Zpos p) by lia.
    apply (iter_pos_invariant shr_1 (shifted m)); [|lia|exact H0].
    intros k x Hk. apply shr_1_shifted. exact Hk.
  - eexists _, _. split; [reflexivity|]. split; [lia|].
    replace (Z.max (Z.neg p) 0) with 0 by lia. exact H0.
Qed.

Lemma round_nearest_even_bounds (mrs : shr_record) :
  let m2 := round_nearest_even (shr_m mrs) (loc_of_shr_record mrs) in
  shr_m mrs <= m2 <= shr_m mrs + 1 /\
  (inexact mrs = false -> m2 = shr_m mrs).
Proof.
  destruct mrs as [m [] []]; unfold inexact; cbn; try destruct (Z.even m);
    split; try lia; try discriminate; reflexivity.
Qed.

Lemma Zdigits2_pos (m : Z) : 0 < m -> 2 ^ (Zdigits2 m - 1) <= m < 2 ^ Zdigits2 m.
Proof.
  destruct m as [|p|p]; try lia. intros _. apply digits2_pos_bounds.
Qed.

Lemma Zdigits2_unique (m d : Z) :
  0 < m -> 2 ^ (d - 1) <= m < 2 ^ d -> Zdigits2 m = d.
Proof.
  destruct m as [|p|p]; try lia. intros _. apply digits2_pos_unique.
Qed.

Lemma shr_fexp_keeps (m e : Z) :
  fexp32 (Zdigits2 m + e) <= e ->
  shr_fexp 24 128 m e loc_Exact = (Build_shr_record m false false, e).
Proof.
  intros H. unfold shr_fexp, shr. cbn [shr_record_of_loc].
  destruct (fexp32 (Zdigits2 m + e) - e) eqn:E; try reflexivity. lia.
Qed.

(** The rounded mantissa and exponent of a positive [mx * 2^ex] whose
    exponent is not above the target exponent. *)
Lemma binary_round_aux_cases (mx : positive) (ex : Z) :
  let e1 := fexp32 (Zpos (digits2_pos mx) + ex) in
  let n := e1 - ex in
  0 <= n ->
  exists m2 : Z,
    (Zpos mx / 2 ^ n <= m2 <= Zpos mx / 2 ^ n + 1) /\
    (Zpos mx mod 2 ^ n = 0 -> m2 = Zpos mx / 2 ^ n) /\
    m2 <= 2 ^ 24 /\
    (-149 < e1 -> 2 ^ 23 <= m2) /\
    ((m2 = 0 /\ binary_round_aux 24 128 false (Zpos mx) ex loc_Exact = S754_zero false) \/
     (0 < m2 < 2 ^ 24 /\
      binary_round_aux 24 128 false (Zpos mx) ex loc_Exact
      = if e1 <=? 104 then S754_finite false (Z.to_pos m2) e1 else S754_infinity false) \/
     (m2 = 2 ^ 24 /\
      binary_round_aux 24 128 false (Zpos mx) ex loc_Exact
      = if e1 + 1 <=? 104 then S754_finite false (Z.to_pos (2 ^ 23)) (e1 + 1)
        else S754_infinity false)).
Proof.
  intros e1 n Hn.
  pose proof (digits2_pos_bounds mx) as [Dlo Dhi].
  set (d := Zpos (digits2_pos mx)) in *.
  assert (e1 = Z.max (d + ex - 24) (-149)) as He1 by reflexivity.
  destruct (shr_fexp_exact (Zpos mx) ex) as (mrs & e' & E1 & He' & Hsh); [lia|].
  cbn [Zdigits2] in He', Hsh. fold d in He', Hsh. fold e1 in He', Hsh. fold n in He', Hsh.
  replace (Z.max n 0) with n in * by lia.
  assert (e' = e1) as -> by lia.
  destruct Hsh as [Hm1 (rem & Hmx & Hrem & Hex)].
  pose proof (round_nearest_even_bounds mrs) as [Hr1 Hr2]. cbv zeta in Hr1, Hr2.
  unfold binary_round_aux. rewrite E1.
  set (m2 := round_nearest_even (shr_m mrs) (loc_of_shr_record mrs)) in *.
  assert (0 < 2 ^ n) as Hpow by (apply Z.pow_pos_nonneg; lia).
  assert (shr_m mrs = Zpos mx / 2 ^ n) as Hdiv.
  { apply (Z.div_unique_pos _ _ _ rem); lia. }
  assert (rem = Zpos mx mod 2 ^ n) as Hmod.
  { apply (Z.mod_unique_pos _ _ (shr_m mrs)); lia. }
  assert (shr_m mrs < 2 ^ 24) as Hm1hi.
  { assert (d <= n + 24) by lia.
    assert (2 ^ d <= 2 ^ (n + 24)) by (apply Z.pow_le_mono_r; lia).
    rewrite Z.pow_add_r in * by lia. nia. }
  assert (-149 < e1 -> 2 ^ 23 <= shr_m mrs) as Hnorm.
  { intros Hgt. assert (d = n + 24) as Hd by lia.
    assert (2 ^ (d - 1) = 2 ^ n * 2 ^ 23) as Hp.
    { rewrite <- Z.pow_add_r by lia. f_equal. lia. }
    nia. }
  exists m2. split; [rewrite <- Hdiv; exact Hr1|].
  split.
  { intros Hz. rewrite <- Hdiv. apply Hr2. apply Hex. lia. }
  split; [lia|]. split; [intros Hgt; specialize (Hnorm Hgt); lia|].
  destruct (Z.eq_dec m2 0) as [Hz|Hnz]; [left|right].
  - split; [exact Hz|]. rewrite Hz.
    rewrite shr_fexp_keeps by (cbn [Zdigits2]; rewrite fexp32_eq; lia).
    reflexivity.
  - destruct (Z.eq_dec m2 (2 ^ 24)) as [Ht|Hnt]; [right|left].
    + split; [exact Ht|]. rewrite Ht.
      unfold shr_fexp, shr. cbn [shr_record_of_loc].
      replace (fexp32 (Zdigits2 (2 ^ 24) + e1) - e1) with 1
        by (change (Zdigits2 (2 ^ 24)) with 25; rewrite fexp32_eq; lia).
      reflexivity.
    + assert (0 < m2 < 2 ^ 24) as Hrange by lia.
      split; [exact Hrange|].
      pose proof (Zdigits2_pos m2 ltac:(lia)) as [D2lo D2hi].
      assert (Zdigits2 m2 <= 24) as Hd2.
      { assert (Zdigits2 m2 - 1 < 24); [|lia].
        apply (Z.pow_lt_mono_r_iff 2); lia. }
      rewrite shr_fexp_keeps by (rewrite fexp32_eq; lia).
      cbn [shr_m]. destruct m2 as [|p|p]; try lia. reflexivity.
Qed.

Lemma bounded_facts (m : positive) (e : Z) :
  bounded 24 128 m e = true ->
  -149 <= e <= 104 /\ Zpos m < 2 ^ 24 /\ (-149 < e -> 2 ^ 23 <= Zpos m).
Proof.
  unfold bounded, canonical_mantissa. intros H.
  apply andb_prop in H as [Hc He].
  apply Z.eqb_eq in Hc. apply Z.leb_le in He. rewrite fexp32_eq in Hc.
  change (128 - 24) with 104 in He.
  pose proof (digits2_pos_bounds m) as [Dlo Dhi].
  set (d := Zpos (digits2_pos m)) in *.
  assert (0 < d) by (subst d; lia).
  split; [lia|]. split.
  - assert (2 ^ d <= 2 ^ 24) by (apply Z.pow_le_mono_r; lia). lia.
  - intros Hgt. assert (d = 24) as Hd by lia. rewrite Hd in Dlo. exact Dlo.
Qed.

Lemma bounded_intro (m : Z) (e : Z) :
  0 < m < 2 ^ 24 -> -149 <= e <= 104 -> (-149 < e -> 2 ^ 23 <= m) ->
  bounded 24 128 (Z.to_pos m) e = true.
Proof.
  intros Hm He Hn. unfold bounded, canonical_mantissa.
  apply andb_true_intro. split; [|apply Z.leb_le; change (128 - 24) with 104; lia].
  apply Z.eqb_eq. rewrite fexp32_eq.
  destruct m as [|p|p]; try lia. cbn [Z.to_pos].
  pose proof (digits2_pos_bounds p) as [Dlo Dhi].
  set (d := Zpos (digits2_pos p)) in *.
  assert (0 < d) by (subst d; lia).
  assert (d <= 24).
  { assert (d - 1 < 24); [|lia]. apply (Z.pow_lt_mono_r_iff 2); lia. }
  destruct (Z.eq_dec e (-149)) as [->|Hne]; [lia|].
  assert (d = 24); [|lia].
  assert (23 < d); [|lia]. apply (Z.pow_lt_mono_r_iff 2); lia.
Qed.

Lemma scaled_lt_pow (m : positive) (e : Z) :
  bounded 24 128 m e = true -> scaled (Zpos m) e < 2 ^ (e + 324).
Proof.
  intros H. destruct (bounded_facts m e H) as (He & Hm & _).
  unfold scaled. replace (e + 324) with (24 + (e + 300)) by lia.
  rewrite (Z.pow_add_r 2 24 (e + 300)) by lia.
  assert (0 < 2 ^ (e + 300)) by (apply Z.pow_pos_nonneg; lia). nia.
Qed.

Lemma scaled_ge_pow (m : positive) (e : Z) :
  bounded 24 128 m e = true -> -149 < e -> 2 ^ (e + 323) <= scaled (Zpos m) e.
Proof.
  intros H Hgt. destruct (bounded_facts m e H) as (He & _ & Hm). specialize (Hm Hgt).
  unfold scaled. replace (e + 323) with (23 + (e + 300)) by lia.
  rewrite (Z.pow_add_r 2 23 (e + 300)) by lia.
  assert (0 < 2 ^ (e + 300)) by (apply Z.pow_pos_nonneg; lia). nia.
Qed.

(** On canonical positive floats the IEEE order is the order of values. *)
Lemma SFleb_scaled (m1 : positive) (e1 : Z) (m2 : positive) (e2 : Z) :
  bounded 24 128 m1 e1 = true -> bounded 24 128 m2 e2 = true ->
  (SFleb (S754_finite false m1 e1) (S754_finite false m2 e2) = true
   <-> scaled (Zpos m1) e1 <= scaled (Zpos m2) e2).
Proof.
  intros H1 H2.
  destruct (bounded_facts m1 e1 H1) as (He1 & Hm1 & Hn1).
  destruct (bounded_facts m2 e2 H2) as (He2 & Hm2 & Hn2).
  pose proof (scaled_lt_pow m1 e1 H1) as U1.
  pose proof (scaled_lt_pow m2 e2 H2) as U2.
  unfold SFleb. cbn [SFcompare].
  destruct (Z.compare_spec e1 e2) as [Heq|Hlt|Hgt].
  - subst e2. change (Pos.compare_cont Eq m1 m2) with (Pos.compare m1 m2).
    unfold scaled.
    assert (0 < 2 ^ (e1 + 300)) by (apply Z.pow_pos_nonneg; lia).
    destruct (Pos.compare_spec m1 m2) as [->|Hl|Hg]; split; intros; try reflexivity;
      try discriminate; nia.
  - split; [intros _|reflexivity].
    pose proof (scaled_ge_pow m2 e2 H2 ltac:(lia)) as L2.
    assert (2 ^ (e1 + 324) <= 2 ^ (e2 + 323)) by (apply Z.pow_le_mono_r; lia).
    lia.
  - split; [discriminate|intros Hle; exfalso].
    pose proof (scaled_ge_pow m1 e1 H1 ltac:(lia)) as L1.
    assert (2 ^ (e2 + 324) <= 2 ^ (e1 + 323)) by (apply Z.pow_le_mono_r; lia).
    lia.
Qed.

Lemma round_value (mx : positive) (ex : Z) (mB : positive) (eB : Z) :
  let e1 := fexp32 (Zpos (digits2_pos mx) + ex) in
  let r := binary_round_aux 24 128 false (Zpos mx) ex loc_Exact in
  ex <= e1 -> -300 <= ex ->
  bounded 24 128 mB eB = true ->
  scaled (Zpos mx) ex <= scaled (Zpos mB) eB ->
  exists m2,
    Zpos mx / 2 ^ (e1 - ex) <= m2 /\
    (-149 < e1 -> 2 ^ 23 <= m2) /\
    m2 * 2 ^ (e1 + 300) <= scaled (Zpos mB) eB /\
    ((m2 = 0 /\ r = S754_zero false) \/
     (0 < m2 /\
      exists m' e', r = S754_finite false m' e' /\
                    bounded 24 128 m' e' = true /\
                    scaled (Zpos m') e' = m2 * 2 ^ (e1 + 300))).
Proof.
  intros e1 r Hn Hex HB Hle.
  destruct (binary_round_aux_cases mx ex ltac:(fold e1; lia))
    as (m2 & Hm2 & Hexact & Hm2hi & Hnorm & Hcases).
  fold e1 in Hm2, Hexact, Hnorm, Hcases. fold r in Hcases.
  set (n := e1 - ex) in *.
  pose proof (digits2_pos_bounds mx) as [Dlo Dhi].
  set (d := Zpos (digits2_pos mx)) in *.
  assert (e1 = Z.max (d + ex - 24) (-149)) as He1 by reflexivity.
  destruct (bounded_facts mB eB HB) as (HeB & HmB & HnB).
  pose proof (scaled_lt_pow mB eB HB) as UB.
  set (E := ex + 300) in *.
  assert (0 < 2 ^ E) as HE by (apply Z.pow_pos_nonneg; lia).
  assert (0 < 2 ^ n) as Hpn by (apply Z.pow_pos_nonneg; lia).
  assert (2 ^ (e1 + 300) = 2 ^ n * 2 ^ E) as Hsplit.
  { rewrite <- Z.pow_add_r by lia. f_equal. lia. }
  (* the target exponent is not above the exponent of the bound *)
  assert (e1 <= eB) as He1B.
  { assert (2 ^ (d - 1 + E) <= scaled (Zpos mx) ex) as L.
    { unfold scaled. fold E. rewrite Z.pow_add_r by lia. nia. }
    assert (d - 1 + E < eB + 324) as Hlt.
    { apply (Z.pow_lt_mono_r_iff 2); lia. }
    lia. }
  set (K := Zpos mB * 2 ^ (eB - e1)).
  assert (scaled (Zpos mB) eB = K * 2 ^ (e1 + 300)) as HK.
  { unfold scaled, K. rewrite <- Z.mul_assoc, <- Z.pow_add_r by lia.
    do 2 f_equal. lia. }
  assert (Zpos mx <= K * 2 ^ n) as HmxK.
  { unfold scaled in Hle. fold E in Hle. unfold scaled in HK. rewrite HK, Hsplit in Hle. nia. }
  pose proof (Z.div_mod (Zpos mx) (2 ^ n) ltac:(lia)) as Hdm.
  pose proof (Z.mod_pos_bound (Zpos mx) (2 ^ n) Hpn) as Hmod.
  assert (m2 <= K) as Hm2K.
  { destruct (Z.lt_ge_cases (Zpos mx / 2 ^ n) K) as [Hl|Hg]; [lia|].
    assert (Zpos mx mod 2 ^ n = 0) as Hz by nia.
    rewrite (Hexact Hz). nia. }
  assert (0 < 2 ^ (e1 + 300)) as Hp1 by (apply Z.pow_pos_nonneg; lia).
  exists m2. split; [lia|]. split; [exact Hnorm|]. split; [rewrite HK; nia|].
  destruct Hcases as [[Hz Hr]|[[Hrange Hr]|[Ht Hr]]].
  - left. split; assumption.
  - right. split; [lia|].
    destruct (Z.leb_spec e1 104) as [_|Hbig]; [|lia].
    exists (Z.to_pos m2), e1. split; [exact Hr|]. split.
    + apply bounded_intro; [lia|lia|exact Hnorm].
    + unfold scaled. rewrite Z2Pos.id by lia. reflexivity.
  - right. split; [lia|].
    assert (e1 < eB) as Hlt.
    { assert (2 ^ (24 + (e1 + 300)) < 2 ^ (eB + 324)) as Hpw.
      { rewrite Z.pow_add_r by lia. rewrite HK in UB. rewrite Ht in Hm2K. nia. }
      apply Z.pow_lt_mono_r_iff in Hpw; lia. }
    destruct (Z.leb_spec (e1 + 1) 104) as [_|Hbig]; [|lia].
    exists (Z.to_pos (2 ^ 23)), (e1 + 1). split; [exact Hr|]. split.
    + apply bounded_intro; [lia|lia|lia].
    + unfold scaled. rewrite Z2Pos.id by lia. rewrite Ht.
      replace (e1 + 1 + 300) with (1 + (e1 + 300)) by lia.
      rewrite (Z.pow_add_r 2 1 (e1 + 300)) by lia. lia.
Qed.

Lemma lower_bound_arith (mx : positive) (ex e1 m2 : Z) (mA : positive) (eA : Z) :
  ex <= e1 -> -300 <= ex -> -149 <= e1 ->
  Zpos mx / 2 ^ (e1 - ex) <= m2 ->
  (-149 < e1 -> 2 ^ 23 <= m2) ->
  bounded 24 128 mA eA = true ->
  scaled (Zpos mA) eA <= scaled (Zpos mx) ex ->
  scaled (Zpos mA) eA <= m2 * 2 ^ (e1 + 300).
Proof.
  intros Hn Hex He1 Hm2 Hnorm HA Hle.
  destruct (bounded_facts mA eA HA) as (HeA & HmA & _).
  set (n := e1 - ex) in *. set (E := ex + 300) in *.
  assert (0 < 2 ^ E) as HE by (apply Z.pow_pos_nonneg; lia).
  assert (0 < 2 ^ n) as Hpn by (apply Z.pow_pos_nonneg; lia).
  assert (2 ^ (e1 + 300) = 2 ^ n * 2 ^ E) as Hsplit.
  { rewrite <- Z.pow_add_r by lia. f_equal. lia. }
  destruct (Z.le_gt_cases e1 eA) as [Hle1|Hgt1].
  - set (K := Zpos mA * 2 ^ (eA - e1)).
    assert (scaled (Zpos mA) eA = K * 2 ^ (e1 + 300)) as HK.
    { unfold scaled, K. rewrite <- Z.mul_assoc, <- Z.pow_add_r by lia.
      do 2 f_equal. lia. }
    assert (K * 2 ^ n <= Zpos mx) as HKx.
    { rewrite HK, Hsplit in Hle. unfold scaled in Hle. fold E in Hle. nia. }
    assert (K <= Zpos mx / 2 ^ n) as HKd.
    { apply Z.div_le_lower_bound; lia. }
    rewrite HK.
    assert (0 < 2 ^ (e1 + 300)) by (apply Z.pow_pos_nonneg; lia). nia.
  - specialize (Hnorm ltac:(lia)).
    pose proof (scaled_lt_pow mA eA HA) as UA.
    assert (2 ^ (eA + 324) <= 2 ^ (23 + (e1 + 300))) as Hp
      by (apply Z.pow_le_mono_r; lia).
    rewrite (Z.pow_add_r 2 23 (e1 + 300)) in Hp by lia.
    assert (0 < 2 ^ (e1 + 300)) by (apply Z.pow_pos_nonneg; lia). nia.
Qed.

(** Rounding a positive value that lies between two canonical floats gives
    a canonical float between them. *)
Lemma round_between (mx : positive) (ex : Z) (mA : positive) (eA : Z)
  (mB : positive) (eB : Z) :
  ex <= fexp32 (Zpos (digits2_pos mx) + ex) -> -300 <= ex ->
  bounded 24 128 mA eA = true -> bounded 24 128 mB eB = true ->
  scaled (Zpos mA) eA <= scaled (Zpos mx) ex <= scaled (Zpos mB) eB ->
  exists m' e',
    binary_round_aux 24 128 false (Zpos mx) ex loc_Exact = S754_finite false m' e' /\
    bounded 24 128 m' e' = true /\
    scaled (Zpos mA) eA <= scaled (Zpos m') e' <= scaled (Zpos mB) eB.
Proof.
  intros Hn Hex HA HB [Hlo Hhi].
  destruct (round_value mx ex mB eB Hn Hex HB Hhi)
    as (m2 & Hdiv & Hnorm & Hup & Hcases).
  assert (scaled (Zpos mA) eA <= m2 * 2 ^ (fexp32 (Zpos (digits2_pos mx) + ex) + 300)) as Hl.
  { apply (lower_bound_arith mx ex _ m2 mA eA); try assumption.
    rewrite fexp32_eq. lia. }
  assert (0 < scaled (Zpos mA) eA) as HposA.
  { destruct (bounded_facts mA eA HA) as (HeA & _ & _).
    unfold scaled. assert (0 < 2 ^ (eA + 300)) by (apply Z.pow_pos_nonneg; lia). nia. }
  destruct Hcases as [[Hz _]|[Hpos (m' & e' & Hr & Hb & Hv)]].
  - rewrite Hz in Hl. lia.
  - exists m', e'. split; [exact Hr|]. split; [exact Hb|]. rewrite Hv. lia.
Qed.

Lemma round_below (mx : positive) (ex : Z) (mB : positive) (eB : Z) :
  ex <= fexp32 (Zpos (digits2_pos mx) + ex) -> -300 <= ex ->
  bounded 24 128 mB eB = true ->
  scaled (Zpos mx) ex <= scaled (Zpos mB) eB ->
  binary_round_aux 24 128 false (Zpos mx) ex loc_Exact = S754_zero false \/
  exists m' e',
    binary_round_aux 24 128 false (Zpos mx) ex loc_Exact = S754_finite false m' e' /\
    bounded 24 128 m' e' = true /\
    scaled (Zpos m') e' <= scaled (Zpos mB) eB.
Proof.
  intros Hn Hex HB Hhi.
  destruct (round_value mx ex mB eB Hn Hex HB Hhi)
    as (m2 & Hdiv & Hnorm & Hup & Hcases).
  destruct Hcases as [[Hz Hr]|[Hpos (m' & e' & Hr & Hb & Hv)]].
  - left. exact Hr.
  - right. exists m', e'. split; [exact Hr|]. split; [exact Hb|]. rewrite Hv. exact Hup.
Qed.

Lemma digits2_pos_mul_ge (m mB : positive) :
  2 ^ 23 <= Zpos mB ->
  Zpos (digits2_pos m) + 23 <= Zpos (digits2_pos (m * mB)).
Proof.
  intros HB. pose proof (digits2_pos_bounds m) as [Dlo _].
  pose proof (digits2_pos_bounds (m * mB)) as [_ Phi].
  set (d := Zpos (digits2_pos m)) in *.
  set (dp := Zpos (digits2_pos (m * mB))) in *.
  assert (0 < d) by (subst d; lia).
  assert (2 ^ (d - 1 + 23) < 2 ^ dp) as Hp.
  { rewrite Z.pow_add_r by lia. rewrite Pos2Z.inj_mul in Phi.
    assert (0 < 2 ^ (d - 1)) by (apply Z.pow_pos_nonneg; lia). nia. }
  apply Z.pow_lt_mono_r_iff in Hp; lia.
Qed.

(** A float of [(0, 1]] times a normal float [B] is at most [B]. *)
Lemma mul_unit_below (m : positive) (e : Z) (mB : positive) (eB : Z) :
  bounded 24 128 m e = true -> bounded 24 128 mB eB = true ->
  2 ^ 23 <= Zpos mB ->
  scaled (Zpos m) e <= 2 ^ 300 ->
  let t := SFmul 24 128 (S754_finite false m e) (S754_finite false mB eB) in
  t = S754_zero false \/
  exists mt et, t = S754_finite false mt et /\ bounded 24 128 mt et = true /\
                scaled (Zpos mt) et <= scaled (Zpos mB) eB.
Proof.
  intros Hv HB Hnormal Hone t. subst t. cbn [SFmul xorb].
  destruct (bounded_facts m e Hv) as (He & Hm & _).
  destruct (bounded_facts mB eB HB) as (HeB & HmB & _).
  apply round_below; try assumption.
  - pose proof (digits2_pos_mul_ge m mB Hnormal).
    assert (0 < Zpos (digits2_pos m)) by lia.
    rewrite fexp32_eq. lia.
  - lia.
  - unfold scaled in *. rewrite Pos2Z.inj_mul.
    replace (e + eB + 300) with ((e + 149) + (eB + 151)) by lia.
    replace (eB + 300) with (149 + (eB + 151)) by lia.
    replace (e + 300) with ((e + 149) + 151) in Hone by lia.
    rewrite (Z.pow_add_r 2 (e + 149) 151) in Hone by lia.
    rewrite (Z.pow_add_r 2 (e + 149) (eB + 151)) by lia.
    rewrite (Z.pow_add_r 2 149 (eB + 151)) by lia.
    assert (0 < 2 ^ (eB + 151)) by (apply Z.pow_pos_nonneg; lia).
    assert (0 < 2 ^ (e + 149)) by (apply Z.pow_pos_nonneg; lia).
    assert (0 < 2 ^ 151) as H151 by (apply Z.pow_pos_nonneg; lia).
    assert (Zpos m * 2 ^ (e + 149) <= 2 ^ 149) as Hs.
    { change (2 ^ 300) with (2 ^ 149 * 2 ^ 151) in Hone.
      apply (Z.mul_le_mono_pos_r _ _ (2 ^ 151) H151).
      rewrite <- Z.mul_assoc. exact Hone. }
    replace (Zpos m * Zpos mB * (2 ^ (e + 149) * 2 ^ (eB + 151)))
      with (Zpos m * 2 ^ (e + 149) * (Zpos mB * 2 ^ (eB + 151))) by ring.
    replace (Zpos mB * (2 ^ 149 * 2 ^ (eB + 151)))
      with (2 ^ 149 * (Zpos mB * 2 ^ (eB + 151))) by ring.
    apply Z.mul_le_mono_nonneg_r; [lia|exact Hs].
Qed.

Lemma pos_iter_xO (m d : positive) :
  Zpos (Pos.iter xO m d) = Zpos m * 2 ^ Zpos d.
Proof.
  induction d as [|d IH] using Pos.peano_ind.
  - cbn [Pos.iter]. rewrite Z.pow_1_r. lia.
  - rewrite Pos.iter_succ, Pos2Z.inj_xO, IH, Pos2Z.inj_succ, Z.pow_succ_r by lia.
    ring.
Qed.

Lemma shl_align_spec (mx : positive) (ex ez : Z) :
  ez <= ex ->
  Zpos (fst (shl_align mx ex ez)) = Zpos mx * 2 ^ (ex - ez) /\
  snd (shl_align mx ex ez) = ez.
Proof.
  intros H. unfold shl_align.
  destruct (ez - ex) as [|p|p] eqn:E; try lia; cbn [fst snd].
  - replace (ex - ez) with 0 by lia. split; lia.
  - rewrite pos_iter_xO. replace (ex - ez) with (Zpos p) by lia. split; [reflexivity|lia].
Qed.

Lemma shl_align_keep (mx : positive) (ex ez : Z) :
  ex <= ez -> shl_align mx ex ez = (mx, ex).
Proof.
  intros H. unfold shl_align. destruct (ez - ex) eqn:E; try reflexivity. lia.
Qed.

Lemma digits2_pos_shift (m : positive) (k : Z) (mz : positive) :
  0 <= k -> Zpos mz = Zpos m * 2 ^ k ->
  Zpos (digits2_pos mz) = Zpos (digits2_pos m) + k.
Proof.
  intros Hk Hmz. apply digits2_pos_unique. rewrite Hmz.
  pose proof (digits2_pos_bounds m) as [Dlo Dhi].
  set (d := Zpos (digits2_pos m)) in *.
  assert (0 < d) by (subst d; lia).
  replace (d + k - 1) with (d - 1 + k) by lia.
  rewrite !Z.pow_add_r by lia.
  assert (0 < 2 ^ k) by (apply Z.pow_pos_nonneg; lia). nia.
Qed.

(** [binary_round] first aligns the mantissa so that rounding only ever
    drops bits. *)
Lemma binary_round_between (s : positive) (ez : Z) (mA : positive) (eA : Z)
  (mB : positive) (eB : Z) :
  -149 <= ez ->
  bounded 24 128 mA eA = true -> bounded 24 128 mB eB = true ->
  scaled (Zpos mA) eA <= scaled (Zpos s) ez <= scaled (Zpos mB) eB ->
  exists m' e',
    binary_round 24 128 false s ez = S754_finite false m' e' /\
    bounded 24 128 m' e' = true /\
    scaled (Zpos mA) eA <= scaled (Zpos m') e' <= scaled (Zpos mB) eB.
Proof.
  intros Hez HA HB Hle. unfold binary_round.
  set (e' := fexp 24 128 (Zpos (digits2_pos s) + ez)).
  assert (e' = Z.max (Zpos (digits2_pos s) + ez - 24) (-149)) as He' by reflexivity.
  destruct (Z.le_gt_cases ez e') as [Hk|Hs].
  - rewrite shl_align_keep by exact Hk.
    apply round_between; try assumption; lia.
  - destruct (shl_align_spec s ez e' ltac:(lia)) as [Hf Hsnd].
    destruct (shl_align s ez e') as [mz ez'] eqn:Esh. cbn [fst snd] in Hf, Hsnd.
    subst ez'.
    pose proof (digits2_pos_shift s (ez - e') mz ltac:(lia) Hf) as Hd.
    assert (scaled (Zpos mz) e' = scaled (Zpos s) ez) as Hval.
    { unfold scaled. rewrite Hf, <- Z.mul_assoc, <- Z.pow_add_r by lia.
      do 2 f_equal. lia. }
    rewrite <- Hval in Hle.
    apply round_between; try assumption; [|lia].
    rewrite fexp32_eq, Hd. lia.
Qed.

(** The sum of two positive canonical floats, when it lies between two
    canonical floats, rounds to a canonical float between them. *)
Lemma add_between (m1 : positive) (e1 : Z) (m2 : positive) (e2 : Z)
  (mA : positive) (eA : Z) (mB : positive) (eB : Z) :
  bounded 24 128 m1 e1 = true -> bounded 24 128 m2 e2 = true ->
  bounded 24 128 mA eA = true -> bounded 24 128 mB eB = true ->
  scaled (Zpos mA) eA <= scaled (Zpos m1) e1 + scaled (Zpos m2) e2
                      <= scaled (Zpos mB) eB ->
  exists m' e',
    SFadd 24 128 (S754_finite false m1 e1) (S754_finite false m2 e2)
    = S754_finite false m' e' /\
    bounded 24 128 m' e' = true /\
    scaled (Zpos mA) eA <= scaled (Zpos m') e' <= scaled (Zpos mB) eB.
Proof.
  intros H1 H2 HA HB Hle. cbn [SFadd cond_Zopp].
  destruct (bounded_facts m1 e1 H1) as (He1 & _ & _).
  destruct (bounded_facts m2 e2 H2) as (He2 & _ & _).
  set (ez := Z.min e1 e2).
  destruct (shl_align_spec m1 e1 ez ltac:(lia)) as [Hf1 _].
  destruct (shl_align_spec m2 e2 ez ltac:(lia)) as [Hf2 _].
  set (s1 := fst (shl_align m1 e1 ez)) in *.
  set (s2 := fst (shl_align m2 e2 ez)) in *.
  change (Zpos s1 + Zpos s2) with (Zpos (s1 + s2)).
  cbn [binary_normalize].
  apply binary_round_between; try assumption; [lia|].
  assert (scaled (Zpos (s1 + s2)) ez = scaled (Zpos m1) e1 + scaled (Zpos m2) e2) as Hval.
  { unfold scaled. rewrite Pos2Z.inj_add, Hf1, Hf2, Z.mul_add_distr_r.
    rewrite <- !Z.mul_assoc, <- !Z.pow_add_r by lia.
    f_equal; do 2 f_equal; lia. }
  rewrite Hval. exact Hle.
Qed.

Lemma scaled_pos (m : positive) (e : Z) : -300 <= e -> 0 < scaled (Zpos m) e.
Proof.
  intros H. unfold scaled.
  assert (0 < 2 ^ (e + 300)) by (apply Z.pow_pos_nonneg; lia). nia.
Qed.

(** A linear map whose span [hi - lo] is computed exactly sends [[0, 1]]
    into [[lo, hi]], rounding included. *)
Lemma MapRange_within (v : float) (mL : positive) (eL : Z) (mH : positive) (eH : Z)
  (mD : positive) (eD : Z) :
  let lo := S754_finite false mL eL in
  let hi := S754_finite false mH eH in
  Float32.valid v = true ->
  Float32.within Float32.zero (Float32.of_Z 1) v = true ->
  bounded 24 128 mL eL = true -> bounded 24 128 mH eH = true ->
  bounded 24 128 mD eD = true -> 2 ^ 23 <= Zpos mD ->
  Float32.sub hi lo = S754_finite false mD eD ->
  scaled (Zpos mL) eL + scaled (Zpos mD) eD = scaled (Zpos mH) eH ->
  Float32.within lo hi (FProceduralController.MapRange v lo hi) = true.
Proof.
  intros lo hi Hvalid Hunit HL HH HD Hnormal Hsub Hsum.
  destruct (bounded_facts mL eL HL) as (HeL & _ & _).
  destruct (bounded_facts mD eD HD) as (HeD & _ & _).
  pose proof (scaled_pos mL eL ltac:(lia)) as PL.
  pose proof (scaled_pos mD eD ltac:(lia)) as PD.
  assert (Float32.within lo hi lo = true) as Hlo.
  { unfold Float32.within, Float32.leb, lo, hi.
    apply andb_true_intro. split; apply SFleb_scaled; try assumption; lia. }
  unfold FProceduralController.MapRange. rewrite Hsub.
  unfold Float32.within in Hunit. apply andb_prop in Hunit as [H0 H1].
  destruct v as [s|s| |s m e].
  - (* a zero: the product is a zero and the sum is [lo] *)
    destruct s; exact Hlo.
  - destruct s; discriminate.
  - discriminate.
  - destruct s; [discriminate|].
    assert (scaled (Zpos m) e <= 2 ^ 300) as Hone.
    { change (2 ^ 300) with (scaled (Zpos 8388608) (-23)).
      apply SFleb_scaled; [exact Hvalid|reflexivity|exact H1]. }
    destruct (mul_unit_below m e mD eD Hvalid HD Hnormal Hone)
      as [Hz|(mt & et & Ht & Hbt & Hle)].
    + unfold Float32.mul, Float32.prec, Float32.emax. rewrite Hz. exact Hlo.
    + unfold Float32.mul, Float32.prec, Float32.emax. rewrite Ht.
      destruct (bounded_facts mt et Hbt) as (Het & _ & _).
      pose proof (scaled_pos mt et ltac:(lia)) as Pt.
      destruct (add_between mL eL mt et mL eL mH eH HL Hbt HL HH ltac:(lia))
        as (m' & e' & Hadd & Hb' & Hlo' & Hhi').
      unfold Float32.add, Float32.prec, Float32.emax, lo. rewrite Hadd.
      unfold Float32.within, Float32.leb, hi.
      apply andb_true_intro. split; apply SFleb_scaled; assumption.
Qed.

Lemma MapRange_100_1000 (v : float) :
  Float32.valid v = true ->
  Float32.within Float32.zero (Float32.of_Z 1) v = true ->
  Float32.within (Float32.of_Z 100) (Float32.of_Z 1000)
    (FProceduralController.MapRange v (Float32.of_Z 100) (Float32.of_Z 1000)) = true.
Proof.
  intros Hvalid Hunit.
  apply (MapRange_within v 13107200 (-17) 16384000 (-14) 14745600 (-14));
    try assumption; try reflexivity.
  vm_compute. discriminate.
Qed.

End RoundingProperties.

(** ** The procedural controller *)

Module ControllerProperties.
Import FProceduralController.

Section WithBodies.
Context {bodies : ProceduralBodies}.

Lemma GenerateParameters_unfold (c : t) :
  GenerateParameters c
  = (mkParameters
       (MapRange (fst (pull (FrequencyGen c))) (FreqMin c) (FreqMax c))
       (MapRange (fst (pull (AmplitudeGen c))) (AmpMin c) (AmpMax c))
       (MapRange (fst (pull (SpectralGen c))) Float32.zero Float32.one)
       (MapRange (fst (pull (DurationGen c))) (DurMin c) (DurMax c)),
     with_generators c
       (snd (pull (FrequencyGen c))) (snd (pull (AmplitudeGen c)))
       (snd (pull (SpectralGen c))) (snd (pull (DurationGen c)))).
Proof.
  unfold GenerateParameters.
  destruct (pull (FrequencyGen c)), (pull (AmplitudeGen c)),
    (pull (SpectralGen c)), (pull (DurationGen c)). reflexivity.
Qed.


End WithBodies.


(** The reference generators return [0.5], which is mapped to [550] Hz. *)
Example reference_frequency_is_550 :
  OutFrequency
    (fst (GenerateParameters (bodies := Reference.bodies)
            (SetFrequencyRange (bodies := Reference.bodies)
               (SetFrequencyGenerator
                  (FProceduralController_new (Collaborators := Reference.collaborators))
                  (Some (NoiseGenerator
                           (FPerlinNoiseGenerator.mk 42 Float32.zero 4
                              (Float32.lit 6 10) (Float32.of_Z 1)))))
               (Float32.of_Z 100) (Float32.of_Z 1000))))
  = Float32.of_Z 550.
Proof. reflexivity. Qed.

End ControllerProperties.

(** ** Arrays and counted loops *)

Module ArrayProperties.

Lemma Get_of_nat {A} (l : list A) (i : nat) :
  TArray.Get l (Z.of_nat i) = l !! i.
Proof.
  unfold TArray.Get, TArray.Num. rewrite Nat2Z.id.
  destruct (Z.leb_spec 0 (Z.of_nat i)); [|lia]. simpl.
  destruct (Z.ltb_spec (Z.of_nat i) (Z.of_nat (length l))); [reflexivity|].
  symmetry. apply lookup_ge_None. lia.
Qed.

Lemma Set_of_nat {A} (l : list A) (i : nat) (x : A) :
  (i < length l)%nat -> TArray.Set_ l (Z.of_nat i) x = Some (<[i := x]> l).
Proof.
  intros H. unfold TArray.Set_, TArray.Num. rewrite Nat2Z.id.
  destruct (Z.leb_spec 0 (Z.of_nat i)); [|lia]. simpl.
  destruct (Z.ltb_spec (Z.of_nat i) (Z.of_nat (length l))); [reflexivity|lia].
Qed.

Lemma SetNum_ok {A} (d : A) (l : list A) (n : Z) :
  0 <= n <= INT32_MAX ->
  TArray.SetNum d l n = Some (resize (Z.to_nat n) d l).
Proof.
  intros [H0 H1]. unfold TArray.SetNum.
  destruct (Z.leb_spec 0 n); [|lia].
  destruct (Z.leb_spec n INT32_MAX); [reflexivity|lia].
Qed.

Lemma Num_length {A} (l : list A) (n : nat) :
  length l = n -> TArray.Num l = Z.of_nat n.
Proof. intros <-. reflexivity. Qed.

(** A counted loop whose iteration [i] stores [g i] in element [i] builds
    the array [g 0, g 1, ...]. *)
Lemma for_loop_stores {A} (g : nat -> A) (body : Z -> list A -> option (list A))
  (n : nat) :
  (forall (i : nat) (b : list A),
     (i < n)%nat -> length b = n ->
     body (Z.of_nat i) b = Some (<[i := g i]> b)) ->
  forall (count i0 : nat) (buf : list A),
    (i0 + count)%nat = n -> length buf = n ->
    for_loop count (Z.of_nat i0) body buf
    = Some (take i0 buf ++ (g <$> seq i0 count)).
Proof.
  intros Hbody count. induction count as [|count IH]; intros i0 buf Hn Hlen; simpl.
  - rewrite take_ge by lia. rewrite app_nil_r. reflexivity.
  - rewrite Hbody by lia. simpl.
    replace (Z.of_nat i0 + 1) with (Z.of_nat (S i0)) by lia.
    rewrite IH by (try rewrite length_insert; lia).
    rewrite (take_S_r _ i0 (g i0)) by (apply list_lookup_insert_eq; lia).
    rewrite take_insert_ge by lia.
    rewrite <- app_assoc. reflexivity.
Qed.

Lemma for_upto_stores {A} (g : nat -> A) (body : Z -> list A -> option (list A))
  (buf : list A) :
  (forall (i : nat) (b : list A),
     (i < length buf)%nat -> length b = length buf ->
     body (Z.of_nat i) b = Some (<[i := g i]> b)) ->
  for_upto (TArray.Num buf) body buf = Some (g <$> seq 0 (length buf)).
Proof.
  intros Hbody. unfold for_upto, TArray.Num. rewrite Nat2Z.id.
  change 0 with (Z.of_nat 0).
  rewrite (for_loop_stores g body (length buf) Hbody) by lia.
  reflexivity.
Qed.

(** A counted loop fails as soon as one of its iterations does. *)
Lemma for_loop_fails {A} (body : Z -> list A -> option (list A)) (n : nat) :
  forall (count i0 k : nat) (buf : list A),
    (i0 <= k < i0 + count)%nat -> length buf = n ->
    (forall (i : nat) (b : list A),
       (i0 <= i < k)%nat -> length b = n ->
       exists b', body (Z.of_nat i) b = Some b' /\ length b' = n) ->
    (forall b : list A, length b = n -> body (Z.of_nat k) b = None) ->
    for_loop count (Z.of_nat i0) body buf = None.
Proof.
  intros count. induction count as [|count IH]; intros i0 k buf Hk Hlen Hok Hfail.
  - lia.
  - cbn [for_loop]. destruct (Nat.eq_dec i0 k) as [->|Hne].
    + rewrite Hfail by exact Hlen. reflexivity.
    + destruct (Hok i0 buf ltac:(lia) Hlen) as (b' & Hb' & Hlen').
      rewrite Hb'. cbn [mbind option_bind].
      replace (Z.of_nat i0 + 1) with (Z.of_nat (S i0)) by lia.
      apply (IH (S i0) k b'); [lia|exact Hlen'| |exact Hfail].
      intros i b Hi Hb. apply Hok; [lia|exact Hb].
Qed.

Lemma fmap_const_seq {A} (x : A) (i n : nat) :
  (fun _ => x) <$> seq i n = replicate n x.
Proof.
  revert i. induction n as [|n IH]; intros i; simpl; [reflexivity|].
  f_equal. apply IH.
Qed.

End ArrayProperties.

(** ** The frame update of the sandbox manager *)

Module ManagerProperties.
Import FSandboxManager.

Section WithCollaborators.
Context {Voices : Type} {collab : Collaborators Voices}.

Abbreviation minus_one := (- Float32.of_Z 1)%f32.
Abbreviation plus_one := (Float32.of_Z 1).

Lemma Silence_ok (m : t Voices) (Buffer : list float) :
  0 <= BufferSize m * 2 <= INT32_MAX ->
  Silence m Buffer
  = Some (replicate (Z.to_nat (BufferSize m * 2)) Float32.zero).
Proof.
  intros H. unfold Silence.
  rewrite ArrayProperties.SetNum_ok by exact H. simpl.
  set (buf := resize _ _ Buffer).
  rewrite (ArrayProperties.for_upto_stores (fun _ => Float32.zero) _ buf).
  - subst buf. rewrite ArrayProperties.fmap_const_seq, length_resize. reflexivity.
  - intros i b Hi Hb. apply ArrayProperties.Set_of_nat. lia.
Qed.

Lemma mix_body_stores (P R b : list float) (i : nat) (p r : float) :
  P !! i = Some p -> R !! i = Some r -> (i < length b)%nat ->
  (p ← TArray.Get P (Z.of_nat i);
   r ← TArray.Get R (Z.of_nat i);
   b ← TArray.Set_ b (Z.of_nat i) (Blend p r);
   x ← TArray.Get b (Z.of_nat i);
   TArray.Set_ b (Z.of_nat i) (FMath.Clamp x minus_one plus_one))
  = Some (<[i := FMath.Clamp (Blend p r) minus_one plus_one]> b).
Proof.
  intros HP HR Hi.
  rewrite !ArrayProperties.Get_of_nat, HP, HR. simpl.
  rewrite ArrayProperties.Set_of_nat by exact Hi. simpl.
  rewrite ArrayProperties.Get_of_nat.
  rewrite list_lookup_insert_eq by exact Hi. simpl.
  rewrite ArrayProperties.Set_of_nat by (rewrite length_insert; exact Hi).
  rewrite list_insert_insert_eq. reflexivity.
Qed.

(** The mixing loop computes, element by element, the clamped blend of the
    two streams. *)
Lemma MixStreams_ok (m : t Voices) (P R Out : list float) :
  0 <= BufferSize m * 2 <= INT32_MAX ->
  BufferSize m * 2 <= TArray.Num P ->
  BufferSize m * 2 <= TArray.Num R ->
  MixStreams m P R Out
  = Some (take (Z.to_nat (BufferSize m * 2))
            (zip_with (fun p r => FMath.Clamp (Blend p r) minus_one plus_one) P R)).
Proof.
  intros H HP HR. unfold MixStreams, TArray.Num in *.
  rewrite ArrayProperties.SetNum_ok by exact H. simpl.
  set (n := Z.to_nat (BufferSize m * 2)).
  set (f := fun p r => FMath.Clamp (Blend p r) minus_one plus_one).
  set (buf := resize n Float32.zero Out).
  assert (length buf = n) as Hbuf by apply length_resize.
  rewrite (ArrayProperties.for_upto_stores
             (fun i => default Float32.zero (zip_with f P R !! i)) _ buf).
  - f_equal. apply list_eq. intros i.
    rewrite list_lookup_fmap, Hbuf.
    destruct (Nat.lt_ge_cases i n) as [Hi|Hi].
    + rewrite lookup_seq_lt, lookup_take_lt by exact Hi. simpl.
      destruct (lookup_lt_is_Some_2 (zip_with f P R) i) as [x Hx].
      { rewrite length_zip_with. lia. }
      rewrite Hx. reflexivity.
    + rewrite lookup_seq_ge, lookup_take_ge by exact Hi. reflexivity.
  - intros i b Hi Hb. rewrite Hbuf in Hi, Hb.
    destruct (lookup_lt_is_Some_2 P i) as [p Hp]; [lia|].
    destruct (lookup_lt_is_Some_2 R i) as [r Hr]; [lia|].
    rewrite lookup_zip_with, Hp, Hr. simpl.
    apply (mix_body_stores P R b i p r Hp Hr). lia.
Qed.

Lemma new_initialized (InSampleRate : float) (InBufferSize : Z) :
  bInitialized (new (Voices := Voices) InSampleRate InBufferSize) = true.
Proof. reflexivity. Qed.

Lemma Update_keeps_configuration store (m : t Voices) DeltaTime Buffer n Out store' m' :
  Update store m DeltaTime Buffer = Some (n, Out, store', m') ->
  n = BufferSize m /\
  BufferSize m' = BufferSize m /\
  bInitialized m' = bInitialized m /\
  bUsePhysicsAudio m' = bUsePhysicsAudio m /\
  bUseProceduralGeneration m' = bUseProceduralGeneration m.
Proof.
  unfold Update. destruct (bInitialized m) eqn:Hinit; simpl.
  - destruct (FPhysicsWorld_SimulateStep _ _ _) as [store1 world1].
    destruct (PhysicsStream _ _ _ _) as [[[[P a] store2] world2]|]; simpl; [|discriminate].
    destruct (ProceduralStream m) as [[R c]|]; simpl; [|discriminate].
    destruct (MixStreams _ _ _ _) as [Out'|]; simpl; [|discriminate].
    intros [= <- <- <- <-]. simpl. rewrite Hinit. repeat split.
  - destruct (Silence m Buffer) as [Out'|]; simpl; [|discriminate].
    intros [= <- <- <- <-]. rewrite Hinit. repeat split.
Qed.

(** The mixing loop fails when the output size is not a valid array size
    or one of the two streams is shorter than the output. *)
Lemma MixStreams_fails (m : t Voices) (P R Out : list float) :
  ~ (0 <= BufferSize m * 2 <= INT32_MAX /\
     BufferSize m * 2 <= TArray.Num P /\
     BufferSize m * 2 <= TArray.Num R) ->
  MixStreams m P R Out = None.
Proof.
  intros Hnot. unfold MixStreams.
  destruct (Z.le_gt_cases 0 (BufferSize m * 2)) as [H0|H0];
    [destruct (Z.le_gt_cases (BufferSize m * 2) INT32_MAX) as [H1|H1]|].
  - rewrite ArrayProperties.SetNum_ok by lia. cbn [mbind option_bind].
    set (n := Z.to_nat (BufferSize m * 2)).
    set (buf := resize n Float32.zero Out).
    assert (length buf = n) as Hbuf by apply length_resize.
    unfold for_upto, TArray.Num in *. rewrite Nat2Z.id, Hbuf.
    set (k := Nat.min (length P) (length R)).
    change 0 with (Z.of_nat 0).
    apply (ArrayProperties.for_loop_fails _ n n 0 k buf); [lia|exact Hbuf| |].
    + intros i b Hi Hb.
      destruct (lookup_lt_is_Some_2 P i) as [p Hp]; [lia|].
      destruct (lookup_lt_is_Some_2 R i) as [r Hr]; [lia|].
      eexists. split; [apply (mix_body_stores P R b i p r Hp Hr); lia|].
      rewrite length_insert. exact Hb.
    + intros b Hb. rewrite !ArrayProperties.Get_of_nat.
      destruct (P !! k) as [p|] eqn:Hp; [|reflexivity]. cbn [mbind option_bind].
      rewrite (proj2 (lookup_ge_None R k)); [reflexivity|].
      apply lookup_lt_Some in Hp. lia.
  - unfold TArray.SetNum.
    destruct (Z.leb_spec (BufferSize m * 2) INT32_MAX); [lia|].
    rewrite andb_false_r. reflexivity.
  - unfold TArray.SetNum.
    destruct (Z.leb_spec 0 (BufferSize m * 2)); [lia|]. reflexivity.
Qed.

(** C1. A frame of an initialised manager, with [PhysicsAudioBuffer] and
    [ProceduralAudioBuffer] the two streams the frame produced.  When the
    output size [2 * BufferSize] is a valid array size and both streams hold
    that many samples, [Update] returns [BufferSize] and an output of
    [2 * BufferSize] samples; sample [i] is the blend
    [(physics[i] * 0.6f + procedural[i] * 0.4f) * 0.9f] of the two streams,
    computed in binary32 with these three weights, then clamped to
    [[-1, 1]]: [-1] when the blend is below [-1], the blend itself when it
    is below [1], and [1] otherwise, a NaN blend included; it lies within
    [[-1, 1]].  In every other case an array access of [Update] is out of
    range and nothing is returned.  The weights are the binary32 numbers
    [0x3F19999A], [0x3ECCCCCD] and [0x3F666666]. *)
Theorem Update_blends_and_clamps
  (store : ObjectStore) (m : t Voices) (DeltaTime : float)
  (OutAudioBuffer : list float)
  (store1 : ObjectStore) (world1 : FPhysicsWorld.t)
  (PhysicsAudioBuffer : list float) (a : FAudioPhysicsSandbox.t Voices)
  (store2 : ObjectStore) (world2 : FPhysicsWorld.t)
  (ProceduralAudioBuffer : list float) (c : FProceduralController.t) :
  bInitialized m = true ->
  FPhysicsWorld_SimulateStep store (PhysicsWorld m)
    (DeltaTime * SimulationSpeed m)%f32 = (store1, world1) ->
  PhysicsStream store1 m world1 (DeltaTime * SimulationSpeed m)%f32
  = Some (PhysicsAudioBuffer, a, store2, world2) ->
  ProceduralStream m = Some (ProceduralAudioBuffer, c) ->
  let in_range :=
    0 <= BufferSize m * 2 <= INT32_MAX /\
    BufferSize m * 2 <= TArray.Num PhysicsAudioBuffer /\
    BufferSize m * 2 <= TArray.Num ProceduralAudioBuffer in
  (in_range ->
   exists Out m',
     Update store m DeltaTime OutAudioBuffer
     = Some (BufferSize m, Out, store2, m') /\
     TArray.Num Out = BufferSize m * 2 /\
     forall i, 0 <= i < BufferSize m * 2 ->
       exists p r x,
         TArray.Get PhysicsAudioBuffer i = Some p /\
         TArray.Get ProceduralAudioBuffer i = Some r /\
         TArray.Get Out i = Some x /\
         let mixed :=
           ((p * Float32.lit 6 10 + r * Float32.lit 4 10)
            * Float32.lit 9 10)%f32 in
         x = FMath.Clamp mixed minus_one plus_one /\
         x = (if (mixed <? minus_one)%f32 then minus_one
              else if (mixed <? plus_one)%f32 then mixed else plus_one) /\
         Float32.within minus_one plus_one x = true) /\
  (~ in_range -> Update store m DeltaTime OutAudioBuffer = None) /\
  (Float32.lit 6 10 = S754_finite false 10066330 (-24) /\
   Float32.lit 4 10 = S754_finite false 13421773 (-25) /\
   Float32.lit 9 10 = S754_finite false 15099494 (-24)).
Proof.
  intros Hinit Hsim HP HR in_range. split; [|split; [|repeat split]].
  - intros (Hsize & HlenP & HlenR).
    unfold Update. rewrite Hinit. simpl. rewrite Hsim, HP. simpl.
    rewrite HR. simpl.
    rewrite (MixStreams_ok m _ _ OutAudioBuffer Hsize HlenP HlenR). simpl.
    set (f := fun p r => FMath.Clamp (Blend p r) minus_one plus_one).
    set (n := Z.to_nat (BufferSize m * 2)).
    unfold TArray.Num in HlenP, HlenR.
    assert (length (take n (zip_with f PhysicsAudioBuffer ProceduralAudioBuffer)) = n)
      as Hlen.
    { rewrite length_take, length_zip_with. lia. }
    eexists _, _. split; [reflexivity|]. split.
    { unfold TArray.Num. rewrite Hlen. lia. }
    intros i Hi.
    replace i with (Z.of_nat (Z.to_nat i)) by lia.
    rewrite !ArrayProperties.Get_of_nat.
    destruct (lookup_lt_is_Some_2 PhysicsAudioBuffer (Z.to_nat i)) as [p Hp]; [lia|].
    destruct (lookup_lt_is_Some_2 ProceduralAudioBuffer (Z.to_nat i)) as [r Hr]; [lia|].
    exists p, r, (f p r). cbv zeta.
    split; [exact Hp|]. split; [exact Hr|]. split.
    { rewrite lookup_take_lt by lia.
      rewrite lookup_zip_with, Hp, Hr. reflexivity. }
    split; [reflexivity|]. split; [reflexivity|].
    apply FloatProperties.Clamp_unit.
  - intros Hnot.
    unfold Update. rewrite Hinit. simpl. rewrite Hsim, HP. simpl.
    rewrite HR. simpl.
    rewrite (MixStreams_fails m _ _ OutAudioBuffer Hnot). reflexivity.
Qed.

Lemma Blend_of_silence :
  FMath.Clamp (Blend Float32.zero Float32.zero) minus_one plus_one = Float32.zero.
Proof. reflexivity. Qed.

Lemma zip_with_silence (n : nat) :
  zip_with (fun p r => FMath.Clamp (Blend p r) minus_one plus_one)
    (replicate n Float32.zero) (replicate n Float32.zero)
  = replicate n Float32.zero.
Proof.
  induction n as [|n IH]; [reflexivity|].
  cbn [replicate zip_with]. rewrite IH, Blend_of_silence. reflexivity.
Qed.

Lemma Update_silent (store : ObjectStore) (m : t Voices) (DeltaTime : float)
  (Buffer : list float) :
  bUsePhysicsAudio m = false ->
  bUseProceduralGeneration m = false ->
  0 <= BufferSize m * 2 <= INT32_MAX ->
  exists store' m',
    Update store m DeltaTime Buffer
    = Some (BufferSize m, replicate (Z.to_nat (BufferSize m * 2)) Float32.zero,
            store', m').
Proof.
  intros Hphys Hproc Hsize. unfold Update.
  destruct (bInitialized m); simpl.
  - destruct (FPhysicsWorld_SimulateStep _ _ _) as [store1 world1].
    unfold PhysicsStream, ProceduralStream. rewrite Hphys, Hproc.
    rewrite !Silence_ok by exact Hsize. simpl.
    rewrite MixStreams_ok;
      try (unfold TArray.Num; rewrite length_replicate; lia); [|exact Hsize].
    simpl. rewrite zip_with_silence.
    rewrite take_ge by (rewrite length_replicate; lia).
    eexists _, _. reflexivity.
  - rewrite Silence_ok by exact Hsize. simpl. eexists _, _. reflexivity.
Qed.

(** C9. Once physics audio and procedural generation have both been
    switched off on a manager whose buffer size is a valid array size, every
    later [Update] call returns [BufferSize] and leaves exactly
    [2 * BufferSize] samples in the output buffer, all [0.0f]. *)
Theorem Update_silent_when_both_disabled
  (store : ObjectStore) (m0 : t Voices) (OutAudioBuffer : list float)
  (DeltaTimes : list float) :
  0 <= BufferSize m0 * 2 <= INT32_MAX ->
  Frames store
    (EnableProceduralGeneration (EnablePhysicsAudio m0 false) false)
    OutAudioBuffer DeltaTimes
  = Some (replicate (length DeltaTimes)
            (BufferSize m0,
             replicate (Z.to_nat (BufferSize m0 * 2)) Float32.zero)).
Proof.
  intros Hsize.
  set (m := EnableProceduralGeneration (EnablePhysicsAudio m0 false) false).
  assert (bUsePhysicsAudio m = false /\ bUseProceduralGeneration m = false /\
          BufferSize m = BufferSize m0) as Hm by (repeat split).
  clearbody m. revert store m OutAudioBuffer Hm.
  induction DeltaTimes as [|DeltaTime rest IH];
    intros store m Buffer (Hphys & Hproc & Hbuf); simpl; [reflexivity|].
  rewrite <- Hbuf in Hsize.
  destruct (Update_silent store m DeltaTime Buffer Hphys Hproc Hsize)
    as (store' & m' & HU).
  rewrite HU. simpl.
  destruct (Update_keeps_configuration _ _ _ _ _ _ _ _ HU)
    as (_ & Hb' & _ & Hphys' & Hproc').
  rewrite (IH store' m').
  - simpl. rewrite Hbuf. reflexivity.
  - rewrite Hphys', Hproc', Hb'. repeat split; assumption.
Qed.


End WithCollaborators.

End ManagerProperties.

Module ManagerExamples.
Import FSandboxManager.

(** A frame of the reference manager: the physics voice is too loud, so
    every output sample is clipped to [1.0]. *)
Example reference_frame_is_clipped :
  exists m',
    Update (collab := Reference.collaborators) ∅ Reference.manager
      (Float32.lit 1 60) []
    = Some (2, replicate 4 (Float32.of_Z 1), ∅, m').
Proof. eexists. vm_compute. reflexivity. Qed.

(** A buffer size of [-1] is not an array size: the frame fails at the
    first [SetNum]. *)
Example negative_buffer_size_fails :
  Update (collab := Reference.collaborators) ∅
    (new (collab := Reference.collaborators) (Float32.of_Z 48000) (-1))
    (Float32.lit 1 60) []
  = None.
Proof. reflexivity. Qed.

(** A frame of the quiet reference manager: physics samples of [0.5] and
    procedural samples of [0.135] blend to
    [(0.5 * 0.6 + 0.135 * 0.4) * 0.9], about [0.3186], which is not clipped
    and differs from what the physics stream alone would give. *)
Example quiet_frame_is_blended :
  exists m',
    Update (collab := Reference.quiet_collaborators) ∅ Reference.quiet_manager
      (Float32.lit 1 60) []
    = Some (2, replicate 4 (S754_finite false 10690442 (-25)), ∅, m') /\
    (Reference.half * Float32.lit 6 10 * Float32.lit 9 10)%f32
    = S754_finite false 9059697 (-25).
Proof. eexists. split; vm_compute; reflexivity. Qed.

Lemma Update_blends_and_clamps_witness :
  exists Out m',
    Update (collab := Reference.quiet_collaborators) ∅ Reference.quiet_manager
      (Float32.lit 1 60) []
    = Some (2, Out, ∅, m') /\
    TArray.Num Out = 4 /\
    forall i, 0 <= i < 4 ->
      exists p r x,
        TArray.Get (replicate 4 Reference.half) i = Some p /\
        TArray.Get (replicate 4
           (FProceduralController.MapRange Reference.half
              (Float32.lit 1 10) (Float32.lit 8 10) * Float32.lit 3 10)%f32) i
        = Some r /\
        TArray.Get Out i = Some x /\
        let mixed :=
          ((p * Float32.lit 6 10 + r * Float32.lit 4 10)
           * Float32.lit 9 10)%f32 in
        x = FMath.Clamp mixed (- Float32.of_Z 1)%f32 (Float32.of_Z 1) /\
        x = (if (mixed <? - Float32.of_Z 1)%f32 then (- Float32.of_Z 1)%f32
             else if (mixed <? Float32.of_Z 1)%f32 then mixed
                  else Float32.of_Z 1) /\
        Float32.within (- Float32.of_Z 1)%f32 (Float32.of_Z 1) x = true.
Proof.
  apply (ManagerProperties.Update_blends_and_clamps
           (collab := Reference.quiet_collaborators)
           ∅ Reference.quiet_manager (Float32.lit 1 60) []
           ∅ (PhysicsWorld Reference.quiet_manager)
           (replicate 4 Reference.half)
           (AudioPhysicsIntegration Reference.quiet_manager)
           ∅ (PhysicsWorld Reference.quiet_manager)
           (replicate 4
              (FProceduralController.MapRange Reference.half
                 (Float32.lit 1 10) (Float32.lit 8 10) * Float32.lit 3 10)%f32)
           (ProceduralController Reference.quiet_manager)).
  - reflexivity.
  - reflexivity.
  - reflexivity.
  - vm_compute. reflexivity.
  - vm_compute. repeat split; discriminate.
Defined.

Lemma Update_silent_when_both_disabled_witness :
  0 <= BufferSize Reference.manager * 2 <= INT32_MAX /\
  Frames (collab := Reference.collaborators) ∅
    (EnableProceduralGeneration (EnablePhysicsAudio Reference.manager false) false)
    [] [Float32.lit 1 60; Float32.lit 1 60; Float32.lit 1 60]
  = Some (replicate 3 (2, replicate 4 Float32.zero)).
Proof.
  assert (0 <= BufferSize Reference.manager * 2 <= INT32_MAX) as H
    by (vm_compute; split; discriminate).
  split; [exact H|].
  apply (ManagerProperties.Update_silent_when_both_disabled
           (collab := Reference.collaborators) ∅ Reference.manager []
           [Float32.lit 1 60; Float32.lit 1 60; Float32.lit 1 60] H).
Defined.

End ManagerExamples.

(** ** The resonant-surface sandbox *)

Module ResonatorProperties.
Import FResonantSurfaceSandbox.

Section WithCollaborators.
Context {Voices : Type} {collab : Collaborators Voices}.

(** C10. With an index below zero or not below the number of resonators,
    [ExciteResonator] returns without an error and leaves the shared
    physics objects and the whole sandbox, its resonator list and its
    manager included, exactly as they were. *)
Theorem ExciteResonator_out_of_range
  (store : ObjectStore) (s : t Voices) (Index : Z) (Energy : float) :
  Index < 0 \/ TArray.Num (Resonators s) <= Index ->
  ExciteResonator store s Index Energy = Some (store, s).
Proof.
  intros H. unfold ExciteResonator.
  destruct (Z.leb_spec 0 Index); simpl; [|reflexivity].
  destruct (Z.ltb_spec Index (TArray.Num (Resonators s))); [lia|reflexivity].
Qed.

End WithCollaborators.

(** A sandbox with one resonator, built by the constructor and
    [AddResonator]. *)
Lemma ExciteResonator_out_of_range_witness :
  let '(store, s) :=
    AddResonator (collab := Reference.collaborators) ∅
      (new (collab := Reference.collaborators) (Float32.of_Z 48000))
      (Float32.of_Z 220) (Float32.of_Z 8) (Float32.of_Z 1) in
  TArray.Num (Resonators s) = 1 /\
  ExciteResonator (collab := Reference.collaborators) store s 1 (Float32.lit 8 10)
  = Some (store, s) /\
  ExciteResonator (collab := Reference.collaborators) store s (-1) (Float32.lit 8 10)
  = Some (store, s).
Proof.
  cbv zeta beta iota delta [AddResonator].
  split; [reflexivity|]. split.
  - apply (ExciteResonator_out_of_range (collab := Reference.collaborators)).
    right. vm_compute. discriminate.
  - apply (ExciteResonator_out_of_range (collab := Reference.collaborators)).
    left. reflexivity.
Defined.

(** Inside the range the call does reach the resonator: its velocity is
    replaced by the impulse in the reference configuration. *)
Example ExciteResonator_in_range_changes_store :
  let '(store, s) :=
    AddResonator (collab := Reference.collaborators) ∅
      (new (collab := Reference.collaborators) (Float32.of_Z 48000))
      (Float32.of_Z 220) (Float32.of_Z 8) (Float32.of_Z 1) in
  ExciteResonator (collab := Reference.collaborators) store s 0 (Float32.lit 8 10)
  <> Some (store, s).
Proof. vm_compute. intros H. discriminate H. Qed.

End ResonatorProperties.

(** ** Order facts of the IEEE comparison *)

Module OrderProperties.

Lemma compare_cont_spec (p q : positive) :
  CompareSpec (p = q) (Zpos p < Zpos q) (Zpos q < Zpos p)
    (Pos.compare_cont Eq p q).
Proof.
  change (Pos.compare_cont Eq p q) with (Pos.compare p q).
  destruct (Pos.compare_spec p q); constructor; lia.
Qed.

Lemma leb_trans (x y z : float) :
  Float32.leb x y = true -> Float32.leb y z = true -> Float32.leb x z = true.
Proof.
  unfold Float32.leb, SFleb. intros Hxy Hyz.
  destruct x as [sx|sx| |sx mx ex], y as [sy|sy| |sy my ey],
    z as [sz|sz| |sz mz ez]; cbn [SFcompare] in *;
    try destruct sx; try destruct sy; try destruct sz;
    try discriminate; try reflexivity.
  all: destruct (Z.compare_spec ex ey); destruct (Z.compare_spec ey ez);
    destruct (Z.compare_spec ex ez); try lia; try discriminate; try reflexivity.
  all: destruct (compare_cont_spec mx my); destruct (compare_cont_spec my mz);
    destruct (compare_cont_spec mx mz); cbn [CompOpp] in *;
    try discriminate; try reflexivity; subst; lia.
Qed.

Lemma ltb_irrefl (x : float) : Float32.ltb x x = false.
Proof.
  unfold Float32.ltb, SFltb.
  destruct (FloatProperties.SFcompare_refl x) as [E|E]; rewrite E; reflexivity.
Qed.

Lemma leb_self (x : float) : x <> S754_nan -> Float32.leb x x = true.
Proof.
  intros Hx. unfold Float32.leb, SFleb.
  destruct (FloatProperties.SFcompare_refl x) as [E|E]; rewrite E; [|reflexivity].
  destruct x as [s|s| |s m e]; try congruence; simpl in E; try discriminate;
    destruct s; discriminate.
Qed.

Lemma leb_not_nan_l (x y : float) : Float32.leb x y = true -> x <> S754_nan.
Proof. intros H ->. discriminate. Qed.

Lemma leb_not_nan_r (x y : float) : Float32.leb x y = true -> y <> S754_nan.
Proof. intros H ->. destruct x; discriminate. Qed.

(** [FMath::Clamp] applied twice is [FMath::Clamp] applied once. *)
Lemma Clamp_idempotent (lo hi x : float) :
  Float32.ltb lo hi = true ->
  FMath.Clamp (FMath.Clamp x lo hi) lo hi = FMath.Clamp x lo hi.
Proof.
  intros Hlt. unfold FMath.Clamp.
  destruct (Float32.ltb x lo) eqn:Hlo.
  - rewrite ltb_irrefl, Hlt. reflexivity.
  - destruct (Float32.ltb x hi) eqn:Hhi.
    + rewrite Hlo, Hhi. reflexivity.
    + rewrite (FloatProperties.leb_not_ltb lo hi (FloatProperties.ltb_leb _ _ Hlt)).
      rewrite ltb_irrefl. reflexivity.
Qed.

(** [FMath::Max(A, B)] is at least [B], whatever [A] is. *)
Lemma Max_ge (A B : float) :
  B <> S754_nan -> Float32.leb B (FMath.Max A B) = true.
Proof.
  intros HB. unfold FMath.Max. destruct (Float32.leb B A) eqn:E; [exact E|].
  apply leb_self, HB.
Qed.

Lemma Max_of_ge (A B : float) :
  Float32.leb B A = true -> FMath.Max A B = A.
Proof. intros H. unfold FMath.Max. rewrite H. reflexivity. Qed.

Lemma Max_of_nan (B : float) : FMath.Max S754_nan B = B.
Proof. unfold FMath.Max. destruct B; reflexivity. Qed.

End OrderProperties.

(** ** Setters that clamp *)

Module SetterProperties.

Section WithCollaborators.
Context {Voices : Type} {collab : Collaborators Voices}.

(** X1. The simulation speed stored by [SetSimulationSpeed] is never below
    [0.1f]: a speed of at least [0.1f] is stored as given, every other
    argument, NaN and the negative infinity included, is stored as [0.1f]. *)
Theorem SetSimulationSpeed_floor (m : FSandboxManager.t Voices) (Speed : float) :
  let m' := FSandboxManager.SetSimulationSpeed m Speed in
  let floor := Float32.lit 1 10 in
  Float32.leb floor (FSandboxManager.GetSimulationSpeed m') = true /\
  (Float32.leb floor Speed = true ->
   FSandboxManager.GetSimulationSpeed m' = Speed) /\
  (Float32.leb floor Speed = false ->
   FSandboxManager.GetSimulationSpeed m' = floor).
Proof.
  intros m' floor. unfold FSandboxManager.GetSimulationSpeed. cbn.
  split; [apply OrderProperties.Max_ge; discriminate|].
  split; [intros H; apply OrderProperties.Max_of_ge, H|].
  intros H. unfold FMath.Max. fold floor. rewrite H. reflexivity.
Qed.

(** X2. The master volume stored by [FSandboxManager::SetMasterVolume]
    lies in [[0, 1]] for every argument (a NaN is stored as [1.0f]); the
    two clamps on the way, the manager's and the integration's, act as
    one; the impact queue, the mapper, the voices and the monitored objects
    are left as they were. *)
Theorem SetMasterVolume_clamped (m : FSandboxManager.t Voices) (Volume : float) :
  let a := FSandboxManager.AudioPhysicsIntegration m in
  let a' :=
    FSandboxManager.AudioPhysicsIntegration
      (FSandboxManager.SetMasterVolume m Volume) in
  let v := FAudioPhysicsSandbox.GetMasterVolume a' in
  Float32.within (Float32.of_Z 0) (Float32.of_Z 1) v = true /\
  v = FMath.Clamp Volume (Float32.of_Z 0) (Float32.of_Z 1) /\
  FAudioPhysicsSandbox.ImpactQueue a' = FAudioPhysicsSandbox.ImpactQueue a /\
  FAudioPhysicsSandbox.PhysicsMapper a' = FAudioPhysicsSandbox.PhysicsMapper a /\
  FAudioPhysicsSandbox.AudioVoices a' = FAudioPhysicsSandbox.AudioVoices a /\
  FAudioPhysicsSandbox.MonitoredObjects a'
  = FAudioPhysicsSandbox.MonitoredObjects a.
Proof.
  intros a a' v.
  assert (v = FMath.Clamp Volume (Float32.of_Z 0) (Float32.of_Z 1)) as Hv.
  { subst v a'. cbn. apply OrderProperties.Clamp_idempotent. reflexivity. }
  split; [rewrite Hv; apply FloatProperties.Clamp_within; reflexivity|].
  split; [exact Hv|]. repeat split.
Qed.

End WithCollaborators.

(** X3. The clamping setters of the physics classes and of the adaptive
    system keep the stored parameter in its range for every argument, NaN
    included: damping and adaptation rate in [[0, 1]], the radius at least
    [0.1f]. *)
Theorem header_setters_clamp
  (o : FPhysicsObject.t) (s : FPhysicsSphere.t)
  (a : FAdaptiveProceduralSystem.t) (x : float) :
  Float32.within (Float32.of_Z 0) (Float32.of_Z 1)
    (FPhysicsObject.Damping (FPhysicsObject.SetDamping o x)) = true /\
  Float32.leb (Float32.lit 1 10)
    (FPhysicsSphere.Radius (PhysicsInline.SetRadius s x)) = true /\
  Float32.within (Float32.of_Z 0) (Float32.of_Z 1)
    (FAdaptiveProceduralSystem.GetAdaptationRate
       (FAdaptiveProceduralSystem.SetAdaptationRate a x)) = true.
Proof.
  cbn. repeat split;
    try (apply (FloatProperties.Clamp_within _ _ x); reflexivity);
    try (apply OrderProperties.Max_ge; discriminate).
Qed.

(** X20. The setters of the noise and chaos generators keep the stored
    parameter in its range for every argument, NaN included: persistence in
    [[0, 1]], the chaos parameter in [[0, 4]], the noise scale at least
    [0.1f], and the octave count at least [1] and at least the count asked
    for. *)
Theorem generator_setters_clamp
  (n : FPerlinNoiseGenerator.t) (c : FChaoticGenerator.t) (x : float) (k : Z) :
  1 <= FPerlinNoiseGenerator.Octaves (GeneratorInline.SetOctaves n k) /\
  k <= FPerlinNoiseGenerator.Octaves (GeneratorInline.SetOctaves n k) /\
  Float32.within (Float32.of_Z 0) (Float32.of_Z 1)
    (FPerlinNoiseGenerator.Persistence (GeneratorInline.SetPersistence n x)) = true /\
  Float32.leb (Float32.lit 1 10)
    (FPerlinNoiseGenerator.Scale (GeneratorInline.SetScale n x)) = true /\
  Float32.within (Float32.of_Z 0) (Float32.of_Z 4)
    (FChaoticGenerator.ChaosParam (GeneratorInline.SetChaosParameter c x)) = true.
Proof.
  cbn. repeat split;
    try (apply (FloatProperties.Clamp_within _ _ x); reflexivity);
    try (apply OrderProperties.Max_ge; discriminate).
  - unfold EngineMath.MaxInt. destruct (Z.leb_spec k 1); lia.
  - unfold EngineMath.MaxInt. destruct (Z.leb_spec k 1); lia.
Qed.

End SetterProperties.

(** ** More about the frame update *)

Module UpdateProperties.
Import FSandboxManager FSandboxManagerMore.

Section WithCollaborators.
Context {Voices : Type} {collab : Collaborators Voices}.

(** What a returning [Update] of an initialised manager went through. *)
Lemma Update_inversion store (m : t Voices) DeltaTime Buffer n Out store' m' :
  bInitialized m = true ->
  Update store m DeltaTime Buffer = Some (n, Out, store', m') ->
  exists store1 world1 P a world2 R c,
    FPhysicsWorld_SimulateStep store (PhysicsWorld m)
      (DeltaTime * SimulationSpeed m)%f32 = (store1, world1) /\
    PhysicsStream store1 m world1 (DeltaTime * SimulationSpeed m)%f32
    = Some (P, a, store', world2) /\
    ProceduralStream m = Some (R, c) /\
    MixStreams m P R Buffer = Some Out /\
    n = BufferSize m /\
    m' = TrackPerformance (with_components m world2 a c).
Proof.
  intros Hinit. unfold Update. rewrite Hinit. cbn [negb].
  destruct (FPhysicsWorld_SimulateStep _ _ _) as [store1 world1].
  destruct (PhysicsStream _ _ _ _) as [[[[P a] store2] world2]|] eqn:HP;
    cbn [mbind option_bind]; [|discriminate].
  destruct (ProceduralStream m) as [[R c]|] eqn:HR;
    cbn [mbind option_bind]; [|discriminate].
  destruct (MixStreams _ _ _ _) as [Out'|] eqn:HM;
    cbn [mbind option_bind]; [|discriminate].
  intros [= <- <- <- <-].
  exists store1, world1, P, a, world2, R, c. repeat split; assumption.
Qed.

Lemma TrackPerformance_history (m : t Voices) (z : float) (k : nat) :
  LastFrameTime m = z -> FrameTimeHistory m = replicate k z -> (k <= 100)%nat ->
  FrameTimeHistory (TrackPerformance m) = replicate (Nat.min (S k) 100) z.
Proof.
  intros Hz Hh Hk. unfold TrackPerformance. cbn [FrameTimeHistory with_history].
  unfold TArray.Add, TArray.Num, TArray.RemoveFirst. rewrite Hz, Hh.
  assert (replicate k z ++ [z] = replicate (S k) z) as ->.
  { clear. induction k as [|k IH]; [reflexivity|]. cbn. rewrite IH. reflexivity. }
  rewrite length_replicate.
  destruct (Z.ltb_spec 100 (Z.of_nat (S k))) as [Hbig|Hsmall].
  - assert (k = 100%nat) as -> by lia. reflexivity.
  - rewrite Nat.min_l by lia. reflexivity.
Qed.

Lemma Session_history_from (z : float) (DeltaTimes : list float) :
  forall store (m : t Voices) Buffer (k : nat) store' m' Buffer',
    bInitialized m = true -> LastFrameTime m = z ->
    FrameTimeHistory m = replicate k z -> (k <= 100)%nat ->
    Session store m Buffer DeltaTimes = Some (store', m', Buffer') ->
    FrameTimeHistory m' = replicate (Nat.min (k + length DeltaTimes) 100) z /\
    LastFrameTime m' = z /\ bInitialized m' = true.
Proof.
  induction DeltaTimes as [|DeltaTime rest IH];
    intros store m Buffer k store' m' Buffer' Hinit Hz Hh Hk; cbn [Session].
  - intros [= <- <- <-]. rewrite Nat.add_0_r, Nat.min_l by lia.
    repeat split; assumption.
  - destruct (Update store m DeltaTime Buffer) as [[[[n Out] store1] m1]|] eqn:HU;
      cbn [mbind option_bind]; [|discriminate].
    intros HS.
    destruct (Update_inversion _ _ _ _ _ _ _ _ Hinit HU)
      as (s1 & w1 & P & a & w2 & R & c & _ & _ & _ & _ & _ & Hm1).
    assert (FrameTimeHistory m1 = replicate (Nat.min (S k) 100) z) as Hh1.
    { rewrite Hm1. apply TrackPerformance_history; assumption. }
    assert (LastFrameTime m1 = z) as Hz1 by (rewrite Hm1; exact Hz).
    assert (bInitialized m1 = true) as Hi1 by (rewrite Hm1; exact Hinit).
    destruct (IH _ _ _ _ _ _ _ Hi1 Hz1 Hh1 ltac:(lia) HS) as [Hfin Hzfin].
    split; [|exact Hzfin]. rewrite Hfin. cbn [length]. f_equal. lia.
Qed.

(** X4. However many frames a freshly constructed manager renders, its
    frame-time history holds one entry per frame up to a cap of 100, and
    every entry is [0.0f]: [LastFrameTime] is never written, so [GetStats]
    always reports a frame time of zero.  The manager stays initialised, so
    no frame takes the silent branch of an uninitialised manager. *)
Theorem Session_frame_time_history
  (InSampleRate : float) (InBufferSize : Z) (store : ObjectStore)
  (Buffer : list float) (DeltaTimes : list float)
  (store' : ObjectStore) (m' : t Voices) (Buffer' : list float) :
  Session store (new InSampleRate InBufferSize) Buffer DeltaTimes
  = Some (store', m', Buffer') ->
  FrameTimeHistory m'
  = replicate (Nat.min (length DeltaTimes) 100) (Float32.of_Z 0) /\
  TArray.Num (FrameTimeHistory m') <= 100 /\
  SimulationFrameTime (snd (GetStats m')) = Float32.of_Z 0 /\
  bInitialized m' = true.
Proof.
  intros HS.
  destruct (Session_history_from (Float32.of_Z 0) DeltaTimes store
              (new InSampleRate InBufferSize) Buffer 0 store' m' Buffer')
    as (Hh & Hz & Hi); try reflexivity; try assumption; [lia|].
  cbn [Nat.add] in Hh. split; [exact Hh|]. split; [|split].
  - unfold TArray.Num. rewrite Hh, length_replicate. lia.
  - cbn. exact Hz.
  - exact Hi.
Qed.

(** X5. A returning [Update] changes none of the settings: sample rate,
    buffer size, simulation speed, the three feature flags, the
    initialisation flag and [LastFrameTime] are what they were, and the
    returned count is the buffer size. *)
Theorem Update_preserves_settings
  store (m : t Voices) DeltaTime Buffer n Out store' m' :
  Update store m DeltaTime Buffer = Some (n, Out, store', m') ->
  n = BufferSize m /\
  SampleRate m' = SampleRate m /\
  BufferSize m' = BufferSize m /\
  SimulationSpeed m' = SimulationSpeed m /\
  bUseProceduralGeneration m' = bUseProceduralGeneration m /\
  bUsePhysicsAudio m' = bUsePhysicsAudio m /\
  bUseResonanceSynthesis m' = bUseResonanceSynthesis m /\
  bInitialized m' = bInitialized m /\
  LastFrameTime m' = LastFrameTime m.
Proof.
  intros HU. destruct (bInitialized m) eqn:Hinit.
  - destruct (Update_inversion _ _ _ _ _ _ _ _ Hinit HU)
      as (s1 & w1 & P & a & w2 & R & c & _ & _ & _ & _ & Hn & Hm').
    rewrite Hm'. cbn. rewrite Hinit. repeat split. exact Hn.
  - unfold Update in HU. rewrite Hinit in HU. cbn [negb] in HU.
    destruct (Silence m Buffer); cbn [mbind option_bind] in HU; [|discriminate].
    injection HU as <- <- <- <-. rewrite Hinit. repeat split.
Qed.

(** X6. The resonance flag is never read: with [EnableResonance] set
    either way, [Update] returns the same count, the same samples and the
    same objects, and managers that differ in that flag only. *)
Theorem Update_ignores_resonance_flag
  store (m : t Voices) (bEnable : bool) DeltaTime Buffer :
  Update store (EnableResonance m bEnable) DeltaTime Buffer
  = (fun r : Z * list float * ObjectStore * t Voices =>
       let '(n, Out, store', m') := r in
       (n, Out, store', EnableResonance m' bEnable))
    <$> Update store m DeltaTime Buffer.
Proof.
  unfold Update. cbn [bInitialized EnableResonance].
  destruct (bInitialized m); cbn [negb].
  - cbn [PhysicsWorld SimulationSpeed EnableResonance].
    destruct (FPhysicsWorld_SimulateStep _ _ _) as [store1 world1].
    change (PhysicsStream store1 (EnableResonance m bEnable) world1)
      with (PhysicsStream store1 m world1).
    destruct (PhysicsStream store1 m world1 _) as [[[[P a] store2] world2]|];
      [|reflexivity].
    cbn [mbind option_bind].
    change (ProceduralStream (EnableResonance m bEnable))
      with (ProceduralStream m).
    destruct (ProceduralStream m) as [[R c]|]; [|reflexivity].
    cbn [mbind option_bind].
    change (MixStreams (EnableResonance m bEnable)) with (MixStreams m).
    destruct (MixStreams m P R Buffer) as [Out|]; reflexivity.
  - change (Silence (EnableResonance m bEnable)) with (Silence m).
    destruct (Silence m Buffer); reflexivity.
Qed.

(** X7. What a frame leaves alone.  With physics audio disabled, [Update]
    does not touch the audio/physics integration, its impact queue
    included, although the physics step still runs; with procedural
    generation disabled, it does not touch the controller, so no generator
    advances; with procedural generation enabled, the controller advances
    by exactly one [GenerateParameters] call. *)
Theorem Update_touches_only_enabled_parts
  store (m : t Voices) DeltaTime Buffer n Out store' m' :
  bInitialized m = true ->
  Update store m DeltaTime Buffer = Some (n, Out, store', m') ->
  (bUsePhysicsAudio m = false ->
   AudioPhysicsIntegration m' = AudioPhysicsIntegration m /\
   (store', PhysicsWorld m')
   = FPhysicsWorld_SimulateStep store (PhysicsWorld m)
       (DeltaTime * SimulationSpeed m)%f32) /\
  (bUseProceduralGeneration m = false ->
   ProceduralController m' = ProceduralController m) /\
  (bUseProceduralGeneration m = true ->
   ProceduralController m'
   = snd (FProceduralController.GenerateParameters (ProceduralController m))).
Proof.
  intros Hinit HU.
  destruct (Update_inversion _ _ _ _ _ _ _ _ Hinit HU)
    as (s1 & w1 & P & a & w2 & R & c & Hsim & HP & HR & _ & _ & Hm').
  rewrite Hm'. cbn. split; [|split].
  - intros Hoff. unfold PhysicsStream in HP. rewrite Hoff in HP.
    destruct (Silence m []); cbn [mbind option_bind] in HP; [|discriminate].
    injection HP as _ <- <- <-. rewrite Hsim. split; reflexivity.
  - intros Hoff. unfold ProceduralStream in HR. rewrite Hoff in HR.
    destruct (Silence m []); cbn [mbind option_bind] in HR; [|discriminate].
    injection HR as _ <-. reflexivity.
  - intros Hon. unfold ProceduralStream, ProcessProceduralAudio in HR.
    rewrite Hon in HR.
    destruct (TArray.SetNum _ _ _); cbn [mbind option_bind] in HR; [|discriminate].
    unfold ProceduralVoice in HR.
    destruct (FProceduralController.GenerateParameters _) as [params c'].
    destruct (FOscillator_GenerateSamples _ _ _). injection HR as _ <-. reflexivity.
Qed.

End WithCollaborators.

Lemma Session_frame_time_history_witness :
  exists store' m' Buffer',
    Session (collab := Reference.collaborators) ∅
      (new (collab := Reference.collaborators) (Float32.of_Z 48000) 2) []
      [Float32.lit 1 60; Float32.lit 1 60; Float32.lit 1 60]
    = Some (store', m', Buffer') /\
    FrameTimeHistory m' = replicate 3 (Float32.of_Z 0) /\
    TArray.Num (FrameTimeHistory m') <= 100 /\
    SimulationFrameTime (snd (GetStats m')) = Float32.of_Z 0 /\
    bInitialized m' = true.
Proof.
  eexists _, _, _. split; [vm_compute; reflexivity|].
  refine (Session_frame_time_history (collab := Reference.collaborators)
            (Float32.of_Z 48000) 2 ∅ []
            [Float32.lit 1 60; Float32.lit 1 60; Float32.lit 1 60] _ _ _ _).
  vm_compute. reflexivity.
Defined.

Lemma Update_preserves_settings_witness :
  exists Out m',
    Update (collab := Reference.collaborators) ∅ Reference.manager
      (Float32.lit 1 60) [] = Some (2, Out, ∅, m') /\
    2 = BufferSize Reference.manager /\
    SampleRate m' = SampleRate Reference.manager /\
    BufferSize m' = BufferSize Reference.manager /\
    SimulationSpeed m' = SimulationSpeed Reference.manager /\
    bUseProceduralGeneration m' = bUseProceduralGeneration Reference.manager /\
    bUsePhysicsAudio m' = bUsePhysicsAudio Reference.manager /\
    bUseResonanceSynthesis m' = bUseResonanceSynthesis Reference.manager /\
    bInitialized m' = bInitialized Reference.manager /\
    LastFrameTime m' = LastFrameTime Reference.manager.
Proof.
  eexists _, _. split; [vm_compute; reflexivity|].
  refine (Update_preserves_settings (collab := Reference.collaborators)
            ∅ Reference.manager (Float32.lit 1 60) [] 2 _ ∅ _ _).
  vm_compute. reflexivity.
Defined.

Lemma Update_touches_only_enabled_parts_witness :
  exists Out m',
    let m := EnablePhysicsAudio Reference.manager false in
    bInitialized m = true /\
    Update (collab := Reference.collaborators) ∅ m (Float32.lit 1 60) []
    = Some (2, Out, ∅, m') /\
    (bUsePhysicsAudio m = false ->
     AudioPhysicsIntegration m' = AudioPhysicsIntegration m /\
     (∅, PhysicsWorld m')
     = FPhysicsWorld_SimulateStep (Collaborators := Reference.collaborators)
         ∅ (PhysicsWorld m) (Float32.lit 1 60 * SimulationSpeed m)%f32) /\
    (bUseProceduralGeneration m = false ->
     ProceduralController m' = ProceduralController m) /\
    (bUseProceduralGeneration m = true ->
     ProceduralController m'
     = snd (FProceduralController.GenerateParameters
              (bodies := Reference.bodies) (ProceduralController m))).
Proof.
  eexists _, _. cbv zeta. split; [reflexivity|].
  split; [vm_compute; reflexivity|].
  refine (Update_touches_only_enabled_parts (collab := Reference.collaborators)
            ∅ (EnablePhysicsAudio Reference.manager false)
            (Float32.lit 1 60) [] 2 _ ∅ _ _ _).
  - reflexivity.
  - vm_compute. reflexivity.
Defined.

End UpdateProperties.

(** ** The peak level of a buffer *)

Module PeakProperties.
Import FSandboxManager Examples.

Lemma comparable (x y : float) :
  x <> S754_nan -> y <> S754_nan -> SFcompare x y <> None.
Proof.
  destruct x as [sx|sx| |sx mx ex], y as [sy|sy| |sy my ey]; cbn;
    try congruence; destruct sx, sy; congruence.
Qed.

Lemma leb_opp (x y : float) :
  Float32.leb (Float32.opp x) (Float32.opp y) = Float32.leb y x.
Proof.
  unfold Float32.leb, SFleb, Float32.opp.
  destruct x as [sx|sx| |sx mx ex], y as [sy|sy| |sy my ey]; cbn;
    try destruct sx; try destruct sy; cbn; try reflexivity.
  all: rewrite (Z.compare_antisym ex ey), (FloatProperties.compare_cont_swap mx my).
  all: destruct (ex ?= ey); cbn; try reflexivity.
  all: destruct (Pos.compare_cont Eq mx my); reflexivity.
Qed.

Lemma opp_involutive (x : float) : Float32.opp (Float32.opp x) = x.
Proof. destruct x as [s|s| |s m e]; cbn; try destruct s; reflexivity. Qed.

Lemma Abs_cases (x : float) :
  EngineMath.Abs x = x \/ EngineMath.Abs x = Float32.opp x.
Proof. destruct x as [s|s| |s m e]; cbn; try destruct s; auto. Qed.

Lemma Abs_not_nan (x : float) : x <> S754_nan -> EngineMath.Abs x <> S754_nan.
Proof. destruct x; cbn; congruence. Qed.

Lemma Abs_nonnegative (x : float) :
  x <> S754_nan -> Float32.leb (Float32.of_Z 0) (EngineMath.Abs x) = true.
Proof. destruct x as [s|s| |s m e]; cbn; try congruence; reflexivity. Qed.

(** [-b <= x <= b] gives [|x| <= b]. *)
Lemma Abs_within (b x : float) :
  Float32.within (Float32.opp b) b x = true ->
  Float32.leb (EngineMath.Abs x) b = true.
Proof.
  unfold Float32.within. intros H. apply andb_prop in H as [Hlo Hhi].
  destruct (Abs_cases x) as [->| ->]; [exact Hhi|].
  rewrite <- (leb_opp b (Float32.opp x)), opp_involutive. exact Hlo.
Qed.

Lemma peak_step_grows (P x : float) :
  P <> S754_nan ->
  Float32.leb P (peak_step P x) = true /\
  (x <> S754_nan -> Float32.leb (EngineMath.Abs x) (peak_step P x) = true).
Proof.
  intros HP. unfold peak_step. cbv zeta.
  destruct (Float32.ltb P (EngineMath.Abs x)) eqn:E.
  - split; [apply FloatProperties.ltb_leb, E|].
    intros Hx. apply OrderProperties.leb_self, Abs_not_nan, Hx.
  - split; [apply OrderProperties.leb_self, HP|].
    intros Hx. apply FloatProperties.not_ltb_leb; [exact E|].
    apply comparable; [exact HP|apply Abs_not_nan, Hx].
Qed.

Lemma peak_fold (AudioBuffer : list float) :
  forall P : float,
    P <> S754_nan ->
    let R := fold_left peak_step AudioBuffer P in
    Float32.leb P R = true /\
    (forall x, x ∈ AudioBuffer -> x <> S754_nan ->
               Float32.leb (EngineMath.Abs x) R = true) /\
    (R = P \/ exists x, x ∈ AudioBuffer /\ x <> S754_nan /\ R = EngineMath.Abs x).
Proof.
  induction AudioBuffer as [|y rest IH]; intros P HP; cbn [fold_left].
  - split; [apply OrderProperties.leb_self, HP|]. split; [|left; reflexivity].
    intros x Hx. inversion Hx.
  - destruct (peak_step_grows P y HP) as [Hgrow Hy].
    assert (peak_step P y <> S754_nan) as HP'
      by (eapply OrderProperties.leb_not_nan_r, Hgrow).
    destruct (IH _ HP') as (H1 & H2 & H3). split; [|split].
    + eapply OrderProperties.leb_trans; [exact Hgrow|exact H1].
    + intros x Hx Hnan. apply elem_of_cons in Hx as [->|Hx].
      * eapply OrderProperties.leb_trans; [apply Hy, Hnan|exact H1].
      * apply H2; assumption.
    + destruct H3 as [H3|(x & Hx & Hn & H3)].
      * rewrite H3. unfold peak_step.
        destruct (Float32.ltb P (EngineMath.Abs y)) eqn:E; [|left; reflexivity].
        right. exists y. split; [apply list_elem_of_here|]. split; [|reflexivity].
        intros ->. discriminate E || (destruct P; discriminate E).
      * right. exists x. split; [apply list_elem_of_further, Hx|]. split; assumption.
Qed.

(** X8. [AnalyzePeakLevel] never returns a NaN or a negative number; it
    returns either [0.0f] or the absolute value of a sample that is not a
    NaN; and the absolute value of every sample that is not a NaN is at most
    the returned peak.  NaN samples are skipped. *)
Theorem AnalyzePeakLevel_is_the_peak (AudioBuffer : list float) :
  let Peak := Examples.AnalyzePeakLevel AudioBuffer in
  Float32.leb (Float32.of_Z 0) Peak = true /\
  (forall x, x ∈ AudioBuffer -> x <> S754_nan ->
             Float32.leb (EngineMath.Abs x) Peak = true) /\
  (Peak = Float32.of_Z 0 \/
   exists x, x ∈ AudioBuffer /\ x <> S754_nan /\ Peak = EngineMath.Abs x).
Proof.
  apply (peak_fold AudioBuffer (Float32.of_Z 0)). discriminate.
Qed.

(** A peak is bounded by whatever bounds the start value and every
    sample. *)
Lemma peak_bounded (b : float) (AudioBuffer : list float) :
  forall P : float,
    Float32.leb P b = true ->
    (forall x, x ∈ AudioBuffer -> Float32.leb (EngineMath.Abs x) b = true) ->
    Float32.leb (fold_left peak_step AudioBuffer P) b = true.
Proof.
  induction AudioBuffer as [|y rest IH]; intros P HP Hall; cbn [fold_left];
    [exact HP|].
  apply IH.
  - unfold peak_step. destruct (Float32.ltb P (EngineMath.Abs y));
      [apply Hall, list_elem_of_here|exact HP].
  - intros x Hx. apply Hall, list_elem_of_further, Hx.
Qed.

Section WithCollaborators.
Context {Voices : Type} {collab : Collaborators Voices}.

(** Every sample of a returned frame lies within [[-1, 1]]. *)
Lemma Update_samples_within store (m : t Voices) DeltaTime Buffer n Out store' m' :
  Update store m DeltaTime Buffer = Some (n, Out, store', m') ->
  TArray.Num Out = BufferSize m * 2 /\
  forall x, x ∈ Out ->
    Float32.within (- Float32.of_Z 1)%f32 (Float32.of_Z 1) x = true.
Proof.
  intros HU. destruct (bInitialized m) eqn:Hinit.
  - destruct (UpdateProperties.Update_inversion _ _ _ _ _ _ _ _ Hinit HU)
      as (s1 & w1 & P & a & w2 & R & c & _ & _ & _ & HM & _ & _).
    destruct (Z.le_gt_cases 0 (BufferSize m * 2)) as [H0|H0];
      [destruct (Z.le_gt_cases (BufferSize m * 2) INT32_MAX) as [H1|H1];
       [destruct (Z.le_gt_cases (BufferSize m * 2) (TArray.Num P)) as [H2|H2];
        [destruct (Z.le_gt_cases (BufferSize m * 2) (TArray.Num R)) as [H3|H3]|]|]|].
    2-5: rewrite ManagerProperties.MixStreams_fails in HM by lia; discriminate.
    rewrite ManagerProperties.MixStreams_ok in HM by lia.
    injection HM as <-. unfold TArray.Num in *. split.
    + rewrite length_take, length_zip_with. lia.
    + intros x Hx. apply elem_of_take in Hx as (i & Hx & _).
      apply lookup_zip_with_Some in Hx as (p & r & -> & _ & _).
      apply FloatProperties.Clamp_unit.
  - unfold Update in HU. rewrite Hinit in HU. cbn [negb] in HU.
    destruct (Silence m Buffer) as [Out'|] eqn:HS; cbn [mbind option_bind] in HU;
      [|discriminate].
    injection HU as <- <- <- <-.
    destruct (Z.le_gt_cases 0 (BufferSize m * 2)) as [H0|H0];
      [destruct (Z.le_gt_cases (BufferSize m * 2) INT32_MAX) as [H1|H1]|].
    + rewrite ManagerProperties.Silence_ok in HS by lia. injection HS as <-.
      unfold TArray.Num. rewrite length_replicate. split; [lia|].
      intros x Hx. apply elem_of_replicate in Hx as [-> _]. reflexivity.
    + unfold Silence, TArray.SetNum in HS.
      destruct (Z.leb_spec (BufferSize m * 2) INT32_MAX); [lia|].
      rewrite andb_false_r in HS. discriminate.
    + unfold Silence, TArray.SetNum in HS.
      destruct (Z.leb_spec 0 (BufferSize m * 2)); [lia|]. discriminate.
Qed.

(** X9. Whatever the two streams hold, NaN and infinities included, the
    buffer a returning [Update] leaves has no NaN in it and its peak level,
    as [AnalyzePeakLevel] measures it, is at most [1.0f]; the buffer holds
    [2 * BufferSize] samples. *)
Theorem Update_peak_at_most_one
  store (m : t Voices) DeltaTime Buffer n Out store' m' :
  Update store m DeltaTime Buffer = Some (n, Out, store', m') ->
  TArray.Num Out = BufferSize m * 2 /\
  (forall x, x ∈ Out -> x <> S754_nan) /\
  Float32.leb (Examples.AnalyzePeakLevel Out) (Float32.of_Z 1) = true.
Proof.
  intros HU. destruct (Update_samples_within _ _ _ _ _ _ _ _ HU) as [Hlen Hall].
  split; [exact Hlen|]. split.
  - intros x Hx. specialize (Hall x Hx). intros ->. discriminate.
  - apply (peak_bounded (Float32.of_Z 1) Out); [reflexivity|].
    intros x Hx. apply Abs_within. apply Hall, Hx.
Qed.

End WithCollaborators.

Lemma Update_peak_at_most_one_witness :
  exists Out m',
    Update (collab := Reference.collaborators) ∅ Reference.manager
      (Float32.lit 1 60) [] = Some (2, Out, ∅, m') /\
    TArray.Num Out = 4 /\
    (forall x, x ∈ Out -> x <> S754_nan) /\
    Float32.leb (Examples.AnalyzePeakLevel Out) (Float32.of_Z 1) = true.
Proof.
  eexists _, _. split; [vm_compute; reflexivity|].
  refine (Update_peak_at_most_one (collab := Reference.collaborators)
            ∅ Reference.manager (Float32.lit 1 60) [] 2 _ ∅ _ _).
  vm_compute. reflexivity.
Defined.

End PeakProperties.

(** ** More about the resonant-surface sandbox *)

Module ResonantSurfaceProperties.
Import FResonantSurfaceSandbox ResonantCalls.

(** The damping [SetSurfaceDamping] asks for survives the clamp of
    [SetDamping] unchanged. *)
Lemma surface_damping_kept (Damping : float) :
  let d := FMath.Clamp (Float32.of_Z 1 - Damping)%f32
             (Float32.lit 8 10) (Float32.of_Z 1) in
  FMath.Clamp d Float32.zero Float32.one = d /\
  Float32.within (Float32.lit 8 10) (Float32.of_Z 1) d = true.
Proof.
  intros d. split; [|apply FloatProperties.Clamp_within; reflexivity].
  subst d. set (v := (Float32.of_Z 1 - Damping)%f32).
  assert (FMath.Clamp v (Float32.lit 8 10) (Float32.of_Z 1)
          = (if Float32.ltb v (Float32.lit 8 10) then Float32.lit 8 10
             else if Float32.ltb v (Float32.of_Z 1) then v else Float32.of_Z 1))
    as -> by reflexivity.
  destruct (Float32.ltb v (Float32.lit 8 10)) eqn:Hlo; [reflexivity|].
  destruct (Float32.ltb v (Float32.of_Z 1)) eqn:Hhi; [|reflexivity].
  unfold FMath.Clamp. change Float32.one with (Float32.of_Z 1). rewrite Hhi.
  assert (v <> S754_nan) as Hv by (intros E; rewrite E in Hhi; discriminate).
  assert (Float32.leb (Float32.lit 8 10) v = true) as Hle.
  { apply FloatProperties.not_ltb_leb; [exact Hlo|].
    apply PeakProperties.comparable; [exact Hv|discriminate]. }
  assert (Float32.leb Float32.zero v = true) as H0.
  { apply (OrderProperties.leb_trans _ (Float32.lit 8 10)); [reflexivity|exact Hle]. }
  rewrite (FloatProperties.leb_not_ltb _ _ H0). reflexivity.
Qed.

Section WithCollaborators.
Context {Voices : Type} {collab : Collaborators Voices}.

(** The loop of [SetSurfaceDamping], for any update [f] of a sphere that
    gives the same result when applied twice. *)
Lemma update_each (f : FPhysicsSphere.t -> FPhysicsSphere.t)
  (Hf : forall x, f (f x) = f x) (l : list ObjectPtr) :
  forall (store : ObjectStore) (p : ObjectPtr),
    fold_left
      (fun store p =>
         match store !! p with
         | Some Sphere => <[p := f Sphere]> store
         | None => store
         end) l store !! p
    = if decide (p ∈ l) then f <$> store !! p else store !! p.
Proof.
  induction l as [|q l IH]; intros store p; cbn [fold_left].
  - rewrite decide_False by (apply not_elem_of_nil). reflexivity.
  - rewrite IH. destruct (decide (p = q)) as [->|Hne].
    + rewrite (decide_True (P := q ∈ q :: l)) by apply list_elem_of_here.
      destruct (store !! q) as [x|] eqn:Hq.
      * rewrite lookup_insert_eq. cbn. destruct (decide (q ∈ l)); cbn;
          [rewrite Hf|]; reflexivity.
      * rewrite Hq. destruct (decide (q ∈ l)); reflexivity.
    + assert ((match store !! q with
               | Some Sphere => <[q := f Sphere]> store
               | None => store
               end) !! p = store !! p) as ->.
      { destruct (store !! q); [apply lookup_insert_ne; congruence|reflexivity]. }
      destruct (decide (p ∈ l)) as [Hin|Hin].
      * rewrite decide_True by (apply list_elem_of_further, Hin). reflexivity.
      * rewrite decide_False; [reflexivity|].
        intros H. apply elem_of_cons in H as [H|H]; contradiction.
Qed.

Lemma SetSurfaceDamping_lookup
  (store : ObjectStore) (s : t Voices) (Damping : float) (p : ObjectPtr) :
  SetSurfaceDamping store s Damping !! p
  = if decide (p ∈ Resonators s)
    then FPhysicsSphere.on_object
           (fun o =>
              FPhysicsObject.SetDamping o
                (FMath.Clamp (Float32.of_Z 1 - Damping)%f32
                   (Float32.lit 8 10) (Float32.of_Z 1))) <$> store !! p
    else store !! p.
Proof.
  apply (update_each
           (FPhysicsSphere.on_object
              (fun o =>
                 FPhysicsObject.SetDamping o
                   (FMath.Clamp (Float32.of_Z 1 - Damping)%f32
                      (Float32.lit 8 10) (Float32.of_Z 1))))).
  intros x. reflexivity.
Qed.

(** X10. [SetSurfaceDamping] keeps the set of live objects, leaves every
    object that is not a resonator exactly as it was, and gives every
    resonator the damping [Clamp(1.0f - Damping, 0.8f, 1.0f)], which lies
    in [[0.8, 1]] whatever [Damping] is, NaN included; position, velocity,
    acceleration, force, mass and radius of a resonator are unchanged. *)
Theorem SetSurfaceDamping_effect
  (store : ObjectStore) (s : t Voices) (Damping : float) (p : ObjectPtr) :
  let store' := SetSurfaceDamping store s Damping in
  let d := FMath.Clamp (Float32.of_Z 1 - Damping)%f32
             (Float32.lit 8 10) (Float32.of_Z 1) in
  (is_Some (store' !! p) <-> is_Some (store !! p)) /\
  (p ∉ Resonators s -> store' !! p = store !! p) /\
  (p ∈ Resonators s ->
   forall Sphere, store !! p = Some Sphere ->
     exists o,
       store' !! p = Some (FPhysicsSphere.mk o (FPhysicsSphere.Radius Sphere)) /\
       FPhysicsObject.Damping o = d /\
       Float32.within (Float32.lit 8 10) (Float32.of_Z 1)
         (FPhysicsObject.Damping o) = true /\
       FPhysicsObject.SetDamping (FPhysicsSphere.Object Sphere) d = o).
Proof.
  intros store' d. destruct (surface_damping_kept Damping) as [Hkeep Hin].
  fold d in Hkeep, Hin.
  subst store'. rewrite SetSurfaceDamping_lookup. fold d. split; [|split].
  - destruct (decide (p ∈ Resonators s)); [|reflexivity].
    rewrite fmap_is_Some. reflexivity.
  - intros Hp. rewrite decide_False by exact Hp. reflexivity.
  - intros Hp Sphere HS. rewrite decide_True by exact Hp. rewrite HS. cbn.
    eexists. split; [reflexivity|]. cbn. rewrite Hkeep. auto.
Qed.

Lemma fresh_ptr_unused (store : ObjectStore) : store !! fresh_ptr store = None.
Proof.
  apply (not_elem_of_dom (D := gset positive)). unfold fresh_ptr. apply is_fresh.
Qed.

Lemma step_consistent (store0 : ObjectStore) (st : ObjectStore * t Voices)
  (c : call) :
  consistent store0 st ->
  exists st',
    step st c = Some st' /\ consistent store0 st' /\
    length (Resonators (snd st'))
    = (length (Resonators (snd st)) + count_added [c])%nat.
Proof.
  destruct st as [store s]. intros (Hlive & Hnodup & Hold).
  unfold resonators_live in Hlive. cbn [fst snd] in *.
  destruct c as [f q mass|Index Energy|Damping]; cbn [step fst snd count_added].
  - eexists. split; [reflexivity|]. unfold AddResonator. cbn [fst snd Resonators].
    set (p := fresh_ptr store).
    assert (store !! p = None) as Hp by apply fresh_ptr_unused.
    unfold ObjectPtr in *.
    assert (p ∉ Resonators s) as Hnew.
    { intros Hin. apply Hlive in Hin. rewrite Hp in Hin. inversion Hin. discriminate. }
    split; [split; [|split]|].
    + intros r Hr. cbn [fst snd Resonators] in *. unfold TArray.Add in Hr.
      apply lookup_insert_is_Some. destruct (decide (p = r)); [left; assumption|].
      right. split; [assumption|]. apply Hlive.
      apply elem_of_app in Hr as [Hr|Hr]; [exact Hr|].
      apply list_elem_of_singleton in Hr. congruence.
    + cbn [snd Resonators]. unfold TArray.Add. apply NoDup_app. split; [exact Hnodup|].
      split; [|apply NoDup_singleton].
      intros r Hr Hr'. apply list_elem_of_singleton in Hr'.
      rewrite Hr' in Hr. contradiction.
    + intros r Hr. cbn [fst snd Resonators]. destruct (Hold r Hr) as [Hsame Hnot].
      assert (r <> p) as Hne.
      { intros E. rewrite E in Hsame, Hr. destruct Hr as [x Hx]. congruence. }
      split; [rewrite lookup_insert_ne by congruence; exact Hsame|].
      unfold TArray.Add. intros Hin. apply elem_of_app in Hin as [Hin|Hin];
        [contradiction|]. apply list_elem_of_singleton in Hin. contradiction.
    + unfold TArray.Add. rewrite length_app. reflexivity.
  - unfold ExciteResonator.
    destruct ((0 <=? Index) && (Index <? TArray.Num (Resonators s))) eqn:Hrange.
    + unfold TArray.Get. rewrite Hrange.
      apply andb_prop in Hrange as [H0 H1].
      apply Z.leb_le in H0. apply Z.ltb_lt in H1. unfold TArray.Num in H1.
      destruct (lookup_lt_is_Some_2 (Resonators s) (Z.to_nat Index)) as [p Hp];
        [lia|].
      rewrite Hp. cbn [mbind option_bind].
      assert (p ∈ Resonators s) as Hin by (eapply list_elem_of_lookup_2, Hp).
      destruct (Hlive p Hin) as [Sphere HS]. rewrite HS. cbn [mbind option_bind].
      eexists. split; [reflexivity|]. cbn [fst snd].
      split; [split; [|split]|lia].
      * intros r Hr. cbn [fst snd]. apply lookup_insert_is_Some.
        destruct (decide (p = r)); [left; assumption|].
        right. split; [assumption|]. apply Hlive, Hr.
      * exact Hnodup.
      * intros r Hr. cbn [fst snd]. destruct (Hold r Hr) as [Hsame Hnot].
        split; [|exact Hnot]. rewrite lookup_insert_ne; [exact Hsame|].
        intros ->. contradiction.
    + eexists. split; [reflexivity|]. cbn [fst snd].
      split; [split; [|split]; assumption|lia].
  - eexists. split; [reflexivity|]. cbn [fst snd].
    split; [split; [|split]|lia].
    + intros r Hr. cbn [fst snd] in *. rewrite SetSurfaceDamping_lookup.
      rewrite decide_True by exact Hr. apply fmap_is_Some, Hlive, Hr.
    + exact Hnodup.
    + intros r Hr. cbn [fst snd]. destruct (Hold r Hr) as [Hsame Hnot].
      split; [|exact Hnot].
      transitivity (store !! r); [|exact Hsame].
      rewrite SetSurfaceDamping_lookup. apply decide_False, Hnot.
Qed.

Lemma run_consistent (store0 : ObjectStore) (calls : list call) :
  forall st : ObjectStore * t Voices,
    consistent store0 st ->
    exists st',
      run st calls = Some st' /\ consistent store0 st' /\
      length (Resonators (snd st'))
      = (length (Resonators (snd st)) + count_added calls)%nat.
Proof.
  induction calls as [|c rest IH]; intros st Hst.
  - exists st. cbn. split; [reflexivity|]. split; [exact Hst|lia].
  - destruct (step_consistent store0 st c Hst) as (st1 & Hstep & H1 & Hlen1).
    destruct (IH st1 H1) as (st' & Hrun & H' & Hlen').
    exists st'. cbn [run]. rewrite Hstep. cbn [mbind option_bind].
    split; [exact Hrun|]. split; [exact H'|].
    rewrite Hlen', Hlen1. destruct c; cbn [count_added]; lia.
Qed.

(** X11. On a resonant-surface sandbox as its constructor leaves it, no
    sequence of [AddResonator], [ExciteResonator] and [SetSurfaceDamping]
    calls ever meets a failed range check or a null resonator, whatever the
    indices are.  After the calls the sandbox holds one resonator per
    [AddResonator] call, the resonators are live and pairwise distinct
    objects, and every object that existed before the calls is exactly as
    it was. *)
Theorem resonant_calls_never_fail
  (store : ObjectStore) (InSampleRate : float) (calls : list call) :
  exists st',
    run (store, new InSampleRate) calls = Some st' /\
    consistent store st' /\
    TArray.Num (Resonators (snd st')) = Z.of_nat (count_added calls).
Proof.
  destruct (run_consistent store calls (store, new InSampleRate))
    as (st' & Hrun & H' & Hlen).
  - split; [|split].
    + intros p Hp. cbn in Hp. inversion Hp.
    + apply NoDup_nil_2.
    + intros p Hp. cbn. split; [reflexivity|apply not_elem_of_nil].
  - exists st'. split; [exact Hrun|]. split; [exact H'|].
    unfold TArray.Num. rewrite Hlen. reflexivity.
Qed.

(** X12. The resonator [AddResonator] creates gets the index the resonator
    count had before the call, and [ExciteResonator] at that index applies
    the impulse [(0, -Energy * 10.0f, 0)] to that new sphere and to no other
    object.  The sphere has radius argument [0.3f] and sits at
    [(count * 1.0f, 2, 0)]; [NaturalFrequency] and [Quality] are never
    read. *)
Theorem AddResonator_then_ExciteResonator
  (store : ObjectStore) (s : t Voices)
  (NaturalFrequency Quality Mass Energy : float) :
  let p := fresh_ptr store in
  let Sphere :=
    FPhysicsSphere.on_object
      (fun o =>
         FPhysicsObject.SetPosition o
           (FVector3.mk
              (Float32.of_Z (TArray.Num (Resonators s)) * Float32.of_Z 1)%f32
              (Float32.of_Z 2) (Float32.of_Z 0)))
      (FPhysicsSphere_new (Float32.lit 3 10) Mass) in
  let Impulse :=
    FVector3.mk (Float32.of_Z 0) (- Energy * Float32.of_Z 10)%f32
      (Float32.of_Z 0) in
  let '(store1, s1) := AddResonator store s NaturalFrequency Quality Mass in
  store !! p = None /\
  TArray.Get (Resonators s1) (TArray.Num (Resonators s)) = Some p /\
  ExciteResonator store1 s1 (TArray.Num (Resonators s)) Energy
  = Some (<[p := FPhysicsSphere.on_object
                   (fun o => FPhysicsObject_ApplyImpulse o Impulse) Sphere]> store,
          s1) /\
  forall f q, AddResonator store s f q Mass = (store1, s1).
Proof.
  cbn zeta. unfold AddResonator. cbn [Resonators].
  set (p := fresh_ptr store).
  assert (store !! p = None) as Hp by apply fresh_ptr_unused.
  assert (TArray.Get (TArray.Add (Resonators s) p) (TArray.Num (Resonators s))
          = Some p) as Hget.
  { unfold TArray.Num. rewrite ArrayProperties.Get_of_nat. unfold TArray.Add.
    rewrite lookup_app_r by lia. rewrite Nat.sub_diag. reflexivity. }
  split; [exact Hp|]. split; [exact Hget|]. split; [|reflexivity].
  unfold ExciteResonator. cbn [Resonators]. rewrite Hget.
  assert ((0 <=? TArray.Num (Resonators s))
          && (TArray.Num (Resonators s) <? TArray.Num (TArray.Add (Resonators s) p))
          = true) as ->.
  { unfold TArray.Num, TArray.Add. rewrite length_app. cbn [length].
    apply andb_true_intro. split; [apply Z.leb_le|apply Z.ltb_lt]; lia. }
  cbn [mbind option_bind]. rewrite lookup_insert_eq. cbn [mbind option_bind].
  rewrite insert_insert_eq. reflexivity.
Qed.

End WithCollaborators.

End ResonantSurfaceProperties.

(** ** The mixing helper and the granular sandbox *)

Module HelperProperties.

Section WithCollaborators.
Context {Voices : Type} {collab : Collaborators Voices}.

Lemma MixAudio_loop (Volume : float) :
  forall (rest_out rest_in done skipped : list float),
    length done = length skipped ->
    for_loop (Nat.min (length rest_out) (length rest_in))
      (Z.of_nat (length done))
      (fun i OutBuffer =>
         o ← TArray.Get OutBuffer i;
         x ← TArray.Get (skipped ++ rest_in) i;
         TArray.Set_ OutBuffer i ((o + x * Volume) * Float32.lit 5 10)%f32)
      (done ++ rest_out)
    = Some (done
            ++ zip_with (fun o x => ((o + x * Volume) * Float32.lit 5 10)%f32)
                 rest_out rest_in
            ++ drop (length rest_in) rest_out).
Proof.
  induction rest_out as [|o rest_out IH]; intros rest_in done skipped Hlen.
  - cbn. rewrite drop_nil. reflexivity.
  - destruct rest_in as [|x rest_in]; [reflexivity|].
    cbn [length Nat.min for_loop zip_with drop].
    rewrite !ArrayProperties.Get_of_nat.
    rewrite (lookup_app_r done), (lookup_app_r skipped) by lia.
    rewrite Hlen, !Nat.sub_diag. cbn [lookup list_lookup mbind option_bind].
    rewrite ArrayProperties.Set_of_nat by (rewrite length_app; cbn; lia).
    cbn [mbind option_bind].
    rewrite insert_app_r_alt by lia. rewrite <- Hlen, Nat.sub_diag.
    cbn [insert list_insert].
    set (y := ((o + x * Volume) * Float32.lit 5 10)%f32).
    replace (Z.of_nat (length done) + 1) with (Z.of_nat (length (done ++ [y])))
      by (rewrite length_app; cbn; lia).
    replace (done ++ y :: rest_out) with ((done ++ [y]) ++ rest_out)
      by (rewrite <- app_assoc; reflexivity).
    replace (skipped ++ x :: rest_in) with ((skipped ++ [x]) ++ rest_in)
      by (rewrite <- app_assoc; reflexivity).
    rewrite (IH rest_in (done ++ [y]) (skipped ++ [x])).
    + rewrite <- app_assoc. reflexivity.
    + rewrite !length_app. cbn. lia.
Qed.

(** X13. [MixAudio] never reads or writes out of range, whatever the two
    sizes are.  It keeps the size of [OutBuffer]; over the common prefix of
    the two buffers element [i] becomes
    [(OutBuffer[i] + InBuffer[i] * Volume) * 0.5f]; the elements of
    [OutBuffer] past the end of [InBuffer] are left as they were. *)
Theorem MixAudio_common_prefix (OutBuffer InBuffer : list float) (Volume : float) :
  exists Mixed,
    FSandboxManagerMore.MixAudio OutBuffer InBuffer Volume = Some Mixed /\
    Mixed
    = zip_with (fun o x => ((o + x * Volume) * Float32.lit 5 10)%f32)
        OutBuffer InBuffer
      ++ drop (length InBuffer) OutBuffer /\
    TArray.Num Mixed = TArray.Num OutBuffer /\
    forall i : nat,
      Mixed !! i
      = match OutBuffer !! i, InBuffer !! i with
        | Some o, Some x => Some ((o + x * Volume) * Float32.lit 5 10)%f32
        | Some o, None => Some o
        | None, _ => None
        end.
Proof.
  eexists. split; [|split; [reflexivity|]].
  - unfold FSandboxManagerMore.MixAudio, for_upto, TArray.Num.
    rewrite <- Nat2Z.inj_min, Nat2Z.id.
    apply (MixAudio_loop Volume OutBuffer InBuffer [] []). reflexivity.
  - split.
    + unfold TArray.Num. rewrite length_app, length_zip_with, length_drop. lia.
    + intros i. destruct (Nat.lt_ge_cases i (length InBuffer)) as [Hi|Hi].
      * destruct (lookup_lt_is_Some_2 InBuffer i Hi) as [x Hx]. rewrite Hx.
        destruct (OutBuffer !! i) as [o|] eqn:Ho.
        -- rewrite lookup_app_l
             by (rewrite length_zip_with; apply lookup_lt_Some in Ho; lia).
           rewrite lookup_zip_with, Ho, Hx. reflexivity.
        -- apply lookup_ge_None. apply lookup_ge_None in Ho.
           rewrite length_app, length_zip_with, length_drop. lia.
      * rewrite (proj2 (lookup_ge_None InBuffer i)) by lia.
        destruct (Nat.le_gt_cases (length OutBuffer) i) as [Ho|Ho].
        -- rewrite (proj2 (lookup_ge_None OutBuffer i)) by lia.
           apply lookup_ge_None.
           rewrite length_app, length_zip_with, length_drop. lia.
        -- destruct (lookup_lt_is_Some_2 OutBuffer i Ho) as [o Hout]. rewrite Hout.
           rewrite lookup_app_r by (rewrite length_zip_with; lia).
           rewrite length_zip_with, lookup_drop, Nat.min_r by lia.
           rewrite <- Hout. f_equal. lia.
Qed.

Context {grains : GrainCollaborators}.

Lemma for_each_adds {A} (x : A) (count : nat) :
  forall (i : Z) (l : list A),
    for_each count i (fun _ l => TArray.Add l x) l = l ++ replicate count x.
Proof.
  induction count as [|count IH]; intros i l; cbn [for_each replicate].
  - rewrite app_nil_r. reflexivity.
  - rewrite IH. unfold TArray.Add. rewrite <- app_assoc. reflexivity.
Qed.

(** X14. The granular sandbox always holds exactly [GrainOverlap] grain
    voices and at least one, after its constructor (four voices built at the
    sandbox's sample rate) and after [ConfigureGrains] with any arguments.
    [ConfigureGrains] stores [max(InGrainOverlap, 1)] and a duration of at
    least [0.01f], a NaN duration being replaced by [0.01f], and rebuilds every voice at [48000.0f]
    whatever sample rate the sandbox was constructed with. *)
Theorem ConfigureGrains_voices
  (InSampleRate InGrainDuration : float) (InGrainOverlap : Z)
  (s : FGranularPhysicsSandbox.t Voices ImpactVoice) :
  let s0 := FGranularPhysicsSandbox.new (collab := collab) InSampleRate in
  let s' := FGranularPhysicsSandbox.ConfigureGrains s InGrainDuration InGrainOverlap in
  FGranularPhysicsSandbox.GrainVoices s0
  = replicate 4 (FImpactSynthesizer_new InSampleRate) /\
  FGranularPhysicsSandbox.GrainOverlap s0 = 4 /\
  FGranularPhysicsSandbox.GrainOverlap s' = Z.max InGrainOverlap 1 /\
  FGranularPhysicsSandbox.GrainVoices s'
  = replicate (Z.to_nat (Z.max InGrainOverlap 1))
      (FImpactSynthesizer_new (Float32.of_Z 48000)) /\
  TArray.Num (FGranularPhysicsSandbox.GrainVoices s')
  = FGranularPhysicsSandbox.GrainOverlap s' /\
  Float32.leb (Float32.lit 1 100) (FGranularPhysicsSandbox.GrainDuration s') = true /\
  FGranularPhysicsSandbox.Manager s' = FGranularPhysicsSandbox.Manager s /\
  FGranularPhysicsSandbox.GrainDuration
    (FGranularPhysicsSandbox.ConfigureGrains s S754_nan InGrainOverlap)
  = Float32.lit 1 100.
Proof.
  intros s0 s'.
  assert (EngineMath.MaxInt InGrainOverlap 1 = Z.max InGrainOverlap 1) as Hmax.
  { unfold EngineMath.MaxInt. destruct (Z.leb_spec 1 InGrainOverlap); lia. }
  assert (FGranularPhysicsSandbox.GrainVoices s'
          = replicate (Z.to_nat (Z.max InGrainOverlap 1))
              (FImpactSynthesizer_new (Float32.of_Z 48000))) as Hvoices.
  { subst s'. unfold FGranularPhysicsSandbox.ConfigureGrains.
    cbn [FGranularPhysicsSandbox.GrainVoices].
    unfold FGranularPhysicsSandbox.add_voices, for_range.
    rewrite for_each_adds, Hmax. reflexivity. }
  split; [|split; [|split; [|split; [|split; [|split; [|split]]]]]].
  - subst s0. unfold FGranularPhysicsSandbox.new.
    cbn [FGranularPhysicsSandbox.GrainVoices].
    unfold FGranularPhysicsSandbox.add_voices, for_range.
    rewrite for_each_adds. reflexivity.
  - reflexivity.
  - exact Hmax.
  - exact Hvoices.
  - rewrite Hvoices. unfold TArray.Num. rewrite length_replicate.
    subst s'. cbn [FGranularPhysicsSandbox.ConfigureGrains
                     FGranularPhysicsSandbox.GrainOverlap]. lia.
  - subst s'. cbn [FGranularPhysicsSandbox.ConfigureGrains
                     FGranularPhysicsSandbox.GrainDuration].
    apply OrderProperties.Max_ge. discriminate.
  - reflexivity.
  - reflexivity.
Qed.

End WithCollaborators.

End HelperProperties.

(** ** Vectors *)

Module VectorProperties.
Import Rounding RoundingProperties.

Lemma add_comm (x y : float) : (x + y)%f32 = (y + x)%f32.
Proof.
  unfold Float32.add.
  destruct x as [sx|sx| |sx mx ex], y as [sy|sy| |sy my ey]; cbn;
    try destruct sx; try destruct sy; try reflexivity.
  all: rewrite (Z.min_comm ey ex); f_equal; apply Z.add_comm.
Qed.

Lemma mul_comm (x y : float) : (x * y)%f32 = (y * x)%f32.
Proof.
  unfold Float32.mul.
  destruct x as [sx|sx| |sx mx ex], y as [sy|sy| |sy my ey]; cbn [SFmul];
    try rewrite (xorb_comm sy sx); try reflexivity.
  rewrite (Pos.mul_comm my mx), (Z.add_comm ey ex). reflexivity.
Qed.

(** X16. Vector addition and the dot product are commutative in binary32
    arithmetic, rounding and overflow included: [a + b] and [b + a], and
    [a.Dot(b)] and [b.Dot(a)], are the same number, the same signed zero or
    the same infinity, or both are NaN.  The float model has a single NaN,
    so nothing is said about the sign or the payload of a NaN result. *)
Theorem FVector3_commutative (a b : FVector3.t) :
  FVector3Ops.operator_plus a b = FVector3Ops.operator_plus b a /\
  FVector3Ops.Dot a b = FVector3Ops.Dot b a.
Proof.
  unfold FVector3Ops.operator_plus, FVector3Ops.Dot. split.
  - f_equal; apply add_comm.
  - rewrite (mul_comm (FVector3.X a)), (mul_comm (FVector3.Y a)),
      (mul_comm (FVector3.Z a)). reflexivity.
Qed.

(** The sign given to the rounding function is the sign of its result. *)
Lemma binary_round_aux_opp (m e : Z) (l : location) :
  binary_round_aux 24 128 true m e l
  = SFopp (binary_round_aux 24 128 false m e l).
Proof.
  unfold binary_round_aux.
  destruct (shr_fexp 24 128 m e l) as [mrs' e'].
  destruct (shr_fexp 24 128 _ e' loc_Exact) as [mrs'' e''].
  destruct (shr_m mrs''); [reflexivity| |reflexivity].
  destruct (e'' <=? 128 - 24); reflexivity.
Qed.

Lemma binary_round_aux_abs (m e : Z) (l : location) :
  SFabs (binary_round_aux 24 128 false m e l)
  = binary_round_aux 24 128 false m e l.
Proof.
  unfold binary_round_aux.
  destruct (shr_fexp 24 128 m e l) as [mrs' e'].
  destruct (shr_fexp 24 128 _ e' loc_Exact) as [mrs'' e''].
  destruct (shr_m mrs''); [reflexivity| |reflexivity].
  destruct (e'' <=? 128 - 24); reflexivity.
Qed.

Lemma square_abs (x : float) : EngineMath.Abs (x * x)%f32 = (x * x)%f32.
Proof.
  unfold EngineMath.Abs, Float32.mul.
  destruct x as [s|s| |s m e]; cbn [SFmul]; try rewrite xorb_nilpotent;
    try reflexivity.
  apply binary_round_aux_abs.
Qed.

Lemma add_abs (x y : float) :
  EngineMath.Abs x = x -> EngineMath.Abs y = y ->
  EngineMath.Abs (x + y)%f32 = (x + y)%f32.
Proof.
  unfold EngineMath.Abs, Float32.add.
  destruct x as [sx|sx| |sx mx ex], y as [sy|sy| |sy my ey]; cbn [SFabs];
    intros Hx Hy; try (injection Hx as <-); try (injection Hy as <-);
    try reflexivity.
  cbn [SFadd cond_Zopp].
  change (Z.pos (fst (shl_align mx ex (Z.min ex ey)))
          + Z.pos (fst (shl_align my ey (Z.min ex ey))))
    with (Z.pos (fst (shl_align mx ex (Z.min ex ey))
                 + fst (shl_align my ey (Z.min ex ey)))).
  unfold binary_normalize, binary_round, Float32.prec, Float32.emax.
  destruct (shl_align (_ + _) _ _) as [mz ez]. apply binary_round_aux_abs.
Qed.

Lemma sqrt_abs (x : float) :
  EngineMath.Abs x = x -> EngineMath.Abs (EngineMath.Sqrt x) = EngineMath.Sqrt x.
Proof.
  unfold EngineMath.Abs, EngineMath.Sqrt, Float32.prec, Float32.emax.
  destruct x as [s|s| |s m e]; cbn [SFabs]; intros Hx;
    try (injection Hx as <-); try reflexivity.
  cbn [SFsqrt].
  destruct (SFsqrt_core_binary 24 128 (Z.pos m) e) as [[mz ez] lz].
  apply binary_round_aux_abs.
Qed.

(** X17. [Magnitude], and with it [GetSpeed], never returns a negative
    number or a negative zero, whatever the components are: the result is a
    NaN or at least [0.0f], and taking its absolute value changes
    nothing. *)
Theorem Magnitude_never_negative (a : FVector3.t) (o : FPhysicsObject.t) :
  let M := FVector3Ops.Magnitude a in
  EngineMath.Abs M = M /\
  (M = S754_nan \/ Float32.leb (Float32.of_Z 0) M = true) /\
  Float32.ltb M (Float32.of_Z 0) = false /\
  M <> S754_zero true /\
  EngineMath.Abs (PhysicsInline.GetSpeed o) = PhysicsInline.GetSpeed o.
Proof.
  assert (forall v, EngineMath.Abs (FVector3Ops.Magnitude v)
                    = FVector3Ops.Magnitude v) as Habs.
  { intros v. unfold FVector3Ops.Magnitude.
    apply sqrt_abs, add_abs; [apply add_abs|]; apply square_abs. }
  intros M. specialize (Habs a) as HM. fold M in HM. clearbody M.
  split; [exact HM|]. split; [|split; [|split]].
  - destruct M as [[]|[]| |[] m e]; try discriminate HM;
      (left; reflexivity) || (right; reflexivity).
  - destruct M as [[]|[]| |[] m e]; try discriminate HM; reflexivity.
  - intros E. rewrite E in HM. discriminate.
  - apply Habs.
Qed.

(** Multiplying a valid number by [1.0f] is exact. *)
Lemma mul_one (x : float) :
  Float32.valid x = true -> (x * Float32.of_Z 1)%f32 = x.
Proof.
  unfold Float32.valid, Float32.mul.
  change (Float32.of_Z 1) with (S754_finite false 8388608 (-23)).
  destruct x as [s|s| |s m e]; cbn [SFmul valid_binary];
    try (intros _; rewrite ?xorb_false_r; reflexivity).
  intros Hb. rewrite xorb_false_r.
  destruct (bounded_facts m e Hb) as (He & Hm & Hnorm).
  assert (Zpos (m * 8388608) = Zpos m * 2 ^ 23) as Hmz by reflexivity.
  assert (fexp32 (Zpos (digits2_pos (m * 8388608)) + (e + -23)) = e) as Hfexp.
  { rewrite (digits2_pos_shift m 23 _ ltac:(lia) Hmz).
    replace (Zpos (digits2_pos m) + 23 + (e + -23))
      with (Zpos (digits2_pos m) + e) by lia.
    unfold bounded, canonical_mantissa in Hb.
    apply andb_prop in Hb as [Hc _]. apply Z.eqb_eq in Hc. exact Hc. }
  assert (binary_round_aux 24 128 false (Zpos (m * 8388608)) (e + -23) loc_Exact
          = S754_finite false m e) as Hround.
  { destruct (binary_round_aux_cases (m * 8388608) (e + -23)) as
        (m2 & _ & Hexact & _ & _ & Hcases).
    { rewrite Hfexp. lia. }
    rewrite Hfexp in Hexact, Hcases.
    replace (e - (e + -23)) with 23 in Hexact by lia.
    rewrite Hmz in Hexact.
    rewrite Z.mod_mul, Z.div_mul in Hexact by lia.
    specialize (Hexact eq_refl). subst m2.
    destruct Hcases as [[H0 _]|[[_ Hr]|[H24 _]]]; [lia| |lia].
    rewrite Hr. destruct (Z.leb_spec e 104); [|lia].
    rewrite Pos2Z.id. reflexivity. }
  destruct s; [|exact Hround].
  rewrite binary_round_aux_opp, Hround. reflexivity.
Qed.

(** X18. Scaling a vector by [1.0f] returns the same vector when its
    components are values a [float] can hold; no rounding takes place. *)
Theorem operator_times_one (a : FVector3.t) :
  Float32.valid (FVector3.X a) = true ->
  Float32.valid (FVector3.Y a) = true ->
  Float32.valid (FVector3.Z a) = true ->
  FVector3Ops.operator_times a (Float32.of_Z 1) = a.
Proof.
  intros HX HY HZ. unfold FVector3Ops.operator_times.
  rewrite !mul_one by assumption. destruct a; reflexivity.
Qed.

Lemma operator_times_one_witness :
  FVector3Ops.operator_times
    (FVector3.mk (Float32.lit 1 3) (- Float32.of_Z 2)%f32 Float32.zero)
    (Float32.of_Z 1)
  = FVector3.mk (Float32.lit 1 3) (- Float32.of_Z 2)%f32 Float32.zero.
Proof.
  apply (operator_times_one
           (FVector3.mk (Float32.lit 1 3) (- Float32.of_Z 2)%f32 Float32.zero));
    reflexivity.
Defined.

End VectorProperties.

(** ** The output buffer a frame is given *)

Module BufferProperties.
Import FSandboxManager.

Section WithCollaborators.
Context {Voices : Type} {collab : Collaborators Voices}.

Lemma Silence_fails (m : t Voices) (Buffer : list float) :
  ~ 0 <= BufferSize m * 2 <= INT32_MAX -> Silence m Buffer = None.
Proof.
  intros Hnot. unfold Silence, TArray.SetNum.
  destruct (Z.leb_spec 0 (BufferSize m * 2)); [|reflexivity].
  destruct (Z.leb_spec (BufferSize m * 2) INT32_MAX); [lia|reflexivity].
Qed.

Lemma Silence_ignores_buffer (m : t Voices) (Buffer1 Buffer2 : list float) :
  Silence m Buffer1 = Silence m Buffer2.
Proof.
  destruct (Z.le_gt_cases 0 (BufferSize m * 2)) as [H0|H0];
    [destruct (Z.le_gt_cases (BufferSize m * 2) INT32_MAX) as [H1|H1]|].
  - rewrite !ManagerProperties.Silence_ok by lia. reflexivity.
  - rewrite !Silence_fails by lia. reflexivity.
  - rewrite !Silence_fails by lia. reflexivity.
Qed.

Lemma MixStreams_ignores_buffer (m : t Voices) (P R Buffer1 Buffer2 : list float) :
  MixStreams m P R Buffer1 = MixStreams m P R Buffer2.
Proof.
  destruct (Z.le_gt_cases 0 (BufferSize m * 2)) as [H0|H0];
    [destruct (Z.le_gt_cases (BufferSize m * 2) INT32_MAX) as [H1|H1];
     [destruct (Z.le_gt_cases (BufferSize m * 2) (TArray.Num P)) as [H2|H2];
      [destruct (Z.le_gt_cases (BufferSize m * 2) (TArray.Num R)) as [H3|H3]|]|]|].
  2-5: rewrite !ManagerProperties.MixStreams_fails by lia; reflexivity.
  rewrite !ManagerProperties.MixStreams_ok by lia. reflexivity.
Qed.

(** X19. What [OutAudioBuffer] holds when [Update] is called, and how long
    it is, has no effect at all: the returned count, the samples left in
    the buffer, the objects and the manager are the same for any two
    buffers, and so is whether the call fails.  Nothing of a previous frame
    leaks into the next one through the buffer. *)
Theorem Update_ignores_buffer_contents
  store (m : t Voices) DeltaTime (Buffer1 Buffer2 : list float) :
  Update store m DeltaTime Buffer1 = Update store m DeltaTime Buffer2.
Proof.
  unfold Update. destruct (bInitialized m); cbn [negb].
  - destruct (FPhysicsWorld_SimulateStep _ _ _) as [store1 world1].
    destruct (PhysicsStream _ _ _ _) as [[[[P a] store2] world2]|]; [|reflexivity].
    cbn [mbind option_bind].
    destruct (ProceduralStream m) as [[R c]|]; [|reflexivity].
    cbn [mbind option_bind].
    rewrite (MixStreams_ignores_buffer m P R Buffer1 Buffer2). reflexivity.
  - rewrite (Silence_ignores_buffer m Buffer1 Buffer2). reflexivity.
Qed.

End WithCollaborators.

End BufferProperties.
